(** * Code-mode sandbox: the mock memory store and the execution engine

    A shallow embedding of
    - [src/servers/memory/types.ts]   (the data model),
    - [src/servers/memory/client.ts]  (the in-memory [MockMCPClient]),
    - [src/servers/memory/operations.ts] (the nine typed wrappers),
    - [src/executor/sandbox.ts]       ([executeCode] and [formatValue]),
    followed by the properties of the store operations and of the engine.

    Conventions.  A JavaScript [Map] is an insertion-ordered association
    list; a [for ... of] loop is a [fold_left] over the iterated array; a
    method that mutates [this] takes the client state and returns the new
    one.  Platform primitives that the source calls but does not define
    ([String.prototype.toLowerCase], [String], [JSON.stringify]) are section
    variables.  Time is counted in whole milliseconds since [startTime]; the
    [timeout] of [vm.Script.runInContext] covers the synchronous run of the
    script, that is the wrapped async body up to its first [await]. *)

From Stdlib Require Import List String Ascii Bool Arith NArith Lia DecimalString.
Import ListNotations.
Local Open Scope string_scope.
Local Open Scope list_scope.

Set Implicit Arguments.

(* ================================================================= *)
(** ** types.ts *)

Inductive entity_literal : Type := entity_lit.       (* type: 'entity' *)
Inductive relation_literal : Type := relation_lit.   (* type: 'relation' *)

Record Entity : Type := mkEntity
  { name : string;
    entityType : string;
    observations : list string }.

(** [EntityWithType extends Entity] with the literal tag. *)
Record EntityWithType : Type := mkEntityWithType
  { ewt_type : entity_literal;
    ewt_entity :> Entity }.

Record Relation : Type := mkRelation
  { from : string;
    to : string;
    relationType : string }.

Record RelationWithType : Type := mkRelationWithType
  { rwt_type : relation_literal;
    rwt_relation :> Relation }.

Record Graph : Type := mkGraph
  { graph_entities : list EntityWithType;
    graph_relations : list RelationWithType }.

(** [CreateEntityInput], [CreateRelationInput] and [SearchResult] have the
    shape of [Entity], [Relation] and [Graph]. *)
Definition CreateEntityInput : Type := Entity.
Definition CreateRelationInput : Type := Relation.
Definition SearchResult : Type := Graph.

Record AddObservationInput : Type := mkAddObservationInput
  { entityName : string;
    contents : list string }.

Record AddObservationResult : Type := mkAddObservationResult
  { res_entityName : string;
    addedObservations : list string }.

Record DeleteObservationInput : Type := mkDeleteObservationInput
  { del_entityName : string;
    del_observations : list string }.

(* ================================================================= *)
(** ** The JavaScript containers and string primitives used by client.ts *)

(** [Map<string, V>]: entries in insertion order, one per key. *)
Definition Map (V : Type) : Type := list (string * V).

Fixpoint Map_get {V : Type} (k : string) (m : Map V) : option V :=
  match m with
  | [] => None
  | (k', v) :: m' => if String.eqb k' k then Some v else Map_get k m'
  end.

(** [m.set(k, v)]: an existing key keeps its position and takes the new
    value; a new key is appended. *)
Fixpoint Map_set {V : Type} (k : string) (v : V) (m : Map V) : Map V :=
  match m with
  | [] => [(k, v)]
  | (k', v') :: m' =>
      if String.eqb k' k then (k, v) :: m' else (k', v') :: Map_set k v m'
  end.

(** [m.delete(k)]: the entry under [k] goes, the others keep their order. *)
Definition Map_delete {V : Type} (k : string) (m : Map V) : Map V :=
  filter (fun kv => negb (String.eqb (fst kv) k)) m.

Definition Map_values {V : Type} (m : Map V) : list V := map snd m.

Definition Map_keys {V : Type} (m : Map V) : list string := map fst m.

Definition Map_has {V : Type} (k : string) (m : Map V) : bool :=
  match Map_get k m with Some _ => true | None => false end.

(** [xs.includes(x)] on an array of strings. *)
Definition Array_includes (xs : list string) (x : string) : bool :=
  existsb (String.eqb x) xs.

(** [s.includes(q)]: [q] occurs in [s] at some position. *)
Fixpoint includes (s q : string) : bool :=
  String.prefix q s ||
  match s with
  | EmptyString => false
  | String _ s' => includes s' q
  end.

(** [xs.filter((e): e is T => e !== undefined)]. *)
Fixpoint filter_defined {A : Type} (xs : list (option A)) : list A :=
  match xs with
  | [] => []
  | Some x :: xs' => x :: filter_defined xs'
  | None :: xs' => filter_defined xs'
  end.

(* ================================================================= *)
(** ** client.ts: MockMCPClient *)

Record MockMCPClient : Type := mkMock
  { entities : Map EntityWithType;
    relations : list Relation }.

(** [new MockMCPClient()] *)
Definition new_MockMCPClient : MockMCPClient :=
  {| entities := []; relations := [] |}.

Definition readGraph (this : MockMCPClient) : Graph :=
  {| graph_entities := Map_values (entities this);
     graph_relations :=
       map (fun r => {| rwt_type := relation_lit; rwt_relation := r |})
           (relations this) |}.

(** One iteration of the loop of [createEntities]; the state is [this]
    together with the local array [created]. *)
Definition createEntities_step
    (acc : MockMCPClient * list Entity) (entity : CreateEntityInput)
  : MockMCPClient * list Entity :=
  let '(this, created) := acc in
  let entityWithType :=
    {| ewt_type := entity_lit;
       ewt_entity := {| name := name entity;
                        entityType := entityType entity;
                        observations := observations entity |} |} in
  ({| entities := Map_set (name entity) entityWithType (entities this);
      relations := relations this |},
   created ++ [entity]).

Definition createEntities (inputs : list CreateEntityInput)
    (this : MockMCPClient) : list Entity * MockMCPClient :=
  let '(this', created) := fold_left createEntities_step inputs (this, []) in
  (created, this').

Definition createRelations (inputs : list CreateRelationInput)
    (this : MockMCPClient) : list CreateRelationInput * MockMCPClient :=
  (inputs,
   fold_left
     (fun this relation =>
        {| entities := entities this;
           relations := relations this ++ [relation] |})
     inputs this).

(** [entity.observations.push(...obs.contents)] changes the entity object
    held by the map: the entry keeps its key and position. *)
Definition addObservations_step
    (acc : MockMCPClient * list AddObservationResult)
    (obs : AddObservationInput)
  : MockMCPClient * list AddObservationResult :=
  let '(this, results) := acc in
  match Map_get (entityName obs) (entities this) with
  | Some entity =>
      let entity' :=
        {| ewt_type := ewt_type entity;
           ewt_entity := {| name := name entity;
                            entityType := entityType entity;
                            observations :=
                              observations entity ++ contents obs |} |} in
      ({| entities := Map_set (entityName obs) entity' (entities this);
          relations := relations this |},
       results ++ [{| res_entityName := entityName obs;
                      addedObservations := contents obs |}])
  | None => (this, results)
  end.

Definition addObservations (inputs : list AddObservationInput)
    (this : MockMCPClient) : list AddObservationResult * MockMCPClient :=
  let '(this', results) := fold_left addObservations_step inputs (this, []) in
  (results, this').

Definition deleteEntities_step (this : MockMCPClient) (n : string)
  : MockMCPClient :=
  {| entities := Map_delete n (entities this);
     relations :=
       filter (fun r => negb (String.eqb (from r) n)
                        && negb (String.eqb (to r) n))
              (relations this) |}.

Definition deleteEntities (entityNames : list string)
    (this : MockMCPClient) : (bool * string) * MockMCPClient :=
  ((true, "Entities deleted successfully"),
   fold_left deleteEntities_step entityNames this).

Definition deleteObservations_step (this : MockMCPClient)
    (deletion : DeleteObservationInput) : MockMCPClient :=
  match Map_get (del_entityName deletion) (entities this) with
  | Some entity =>
      let entity' :=
        {| ewt_type := ewt_type entity;
           ewt_entity :=
             {| name := name entity;
                entityType := entityType entity;
                observations :=
                  filter (fun o =>
                            negb (Array_includes (del_observations deletion) o))
                         (observations entity) |} |} in
      {| entities := Map_set (del_entityName deletion) entity' (entities this);
         relations := relations this |}
  | None => this
  end.

Definition deleteObservations (deletions : list DeleteObservationInput)
    (this : MockMCPClient) : bool * MockMCPClient :=
  (true, fold_left deleteObservations_step deletions this).

Definition deleteRelations_step (this : MockMCPClient)
    (rel : CreateRelationInput) : MockMCPClient :=
  {| entities := entities this;
     relations :=
       filter (fun r => negb (String.eqb (from r) (from rel)
                              && String.eqb (to r) (to rel)
                              && String.eqb (relationType r) (relationType rel)))
              (relations this) |}.

Definition deleteRelations (rels : list CreateRelationInput)
    (this : MockMCPClient) : bool * MockMCPClient :=
  (true, fold_left deleteRelations_step rels this).

Definition openNodes (names : list string) (this : MockMCPClient)
  : SearchResult :=
  {| graph_entities :=
       filter_defined (map (fun n => Map_get n (entities this)) names);
     graph_relations := [] |}.

(** [loadData(graph)]: the test utility that replaces the contents. *)
Definition loadData (graph : Graph) (this : MockMCPClient) : MockMCPClient :=
  let cleared := {| entities := []; relations := [] |} in
  let with_entities :=
    fold_left
      (fun this (entity : EntityWithType) =>
         {| entities := Map_set (name entity) entity (entities this);
            relations := relations this |})
      (graph_entities graph) cleared in
  fold_left
    (fun this (relation : RelationWithType) =>
       {| entities := entities this;
          relations :=
            relations this ++ [{| from := from relation;
                                  to := to relation;
                                  relationType := relationType relation |}] |})
    (graph_relations graph) with_entities.

Section Search.

(** [String.prototype.toLowerCase]. *)
Variable toLowerCase : string -> string.

(** The predicate handed to [filter] in [searchNodes]. *)
Definition searchNodes_match (query : string) (e : EntityWithType) : bool :=
  includes (toLowerCase (name e)) (toLowerCase query)
  || includes (toLowerCase (entityType e)) (toLowerCase query)
  || existsb (fun o => includes (toLowerCase o) (toLowerCase query))
             (observations e).

Definition searchNodes (query : string) (this : MockMCPClient)
  : SearchResult :=
  {| graph_entities :=
       filter (searchNodes_match query) (Map_values (entities this));
     graph_relations := [] |}.

End Search.

(* ================================================================= *)
(** ** Values crossing the engine boundary *)

(** What [formatValue] distinguishes in a value: [null], [undefined], the
    [typeof] classes and [Array.isArray].  A string carries itself. *)
Inductive js_type : Type :=
| js_null
| js_undefined
| js_string (s : string)
| js_number
| js_boolean
| js_array
| js_object
| js_other.

(** A thrown value reaching a [catch]: either a value of the script, or an
    [Error] built by host code with [new Error(message)] (the client module,
    or the [vm] module when its timer fires). *)
Inductive thrown (value : Type) : Type :=
| ThrownValue (v : value)
| NewError (message : string).

Arguments ThrownValue {value} v.
Arguments NewError {value} message.

(** A promise, seen from the code awaiting it: how long it stays pending
    (milliseconds) and what it settles to. *)
Record Promise (value T : Type) : Type := mkPromise
  { pending_ms : N;
    settled : T + thrown value }.

Definition resolved {value T : Type} (x : T) : Promise value T :=
  {| pending_ms := 0%N; settled := inl x |}.

Definition rejected {value T : Type} (e : thrown value) : Promise value T :=
  {| pending_ms := 0%N; settled := inr e |}.

(* ================================================================= *)
(** ** operations.ts and the client interface *)

(** The calls the nine wrappers of operations.ts issue: a tool name with the
    parameter object the wrapper builds for it. *)
Inductive tool_call : Type :=
| call_readGraph
| call_createEntities (es : list CreateEntityInput)
| call_createRelations (rs : list CreateRelationInput)
| call_addObservations (os : list AddObservationInput)
| call_deleteEntities (entityNames : list string)
| call_deleteObservations (deletions : list DeleteObservationInput)
| call_deleteRelations (rs : list CreateRelationInput)
| call_searchNodes (query : string)
| call_openNodes (names : list string).

Definition toolName (c : tool_call) : string :=
  match c with
  | call_readGraph => "read_graph"
  | call_createEntities _ => "create_entities"
  | call_createRelations _ => "create_relations"
  | call_addObservations _ => "add_observations"
  | call_deleteEntities _ => "delete_entities"
  | call_deleteObservations _ => "delete_observations"
  | call_deleteRelations _ => "delete_relations"
  | call_searchNodes _ => "search_nodes"
  | call_openNodes _ => "open_nodes"
  end.

(** The plain data a tool call resolves to. *)
Inductive response : Type :=
| resp_graph (g : Graph)
| resp_entities (created : list Entity)
| resp_relations (rs : list CreateRelationInput)
| resp_results (results : list AddObservationResult)
| resp_deleted (success : bool) (message : string)
| resp_success (success : bool)
| resp_search (r : SearchResult).

(** [interface MCPClientInterface]: a client answers a call with a promise
    and may change its own state. *)
Class MCPClientInterface (value C : Type) : Type :=
  { callTool : C -> tool_call -> Promise value response * C }.

(** [MockMCPClient.callTool]: the [switch] over the tool name, at the names
    the wrappers use (its [default] branch is out of their reach); the method
    is [async] and never awaits, so its promise is settled on return. *)
Definition Mock_callTool (value : Type) (toLowerCase : string -> string)
    (this : MockMCPClient) (c : tool_call)
  : Promise value response * MockMCPClient :=
  match c with
  | call_readGraph => (resolved (resp_graph (readGraph this)), this)
  | call_createEntities es =>
      let '(created, this') := createEntities es this in
      (resolved (resp_entities created), this')
  | call_createRelations rs =>
      let '(rs', this') := createRelations rs this in
      (resolved (resp_relations rs'), this')
  | call_addObservations os =>
      let '(results, this') := addObservations os this in
      (resolved (resp_results results), this')
  | call_deleteEntities ns =>
      let '((ok, msg), this') := deleteEntities ns this in
      (resolved (resp_deleted ok msg), this')
  | call_deleteObservations ds =>
      let '(ok, this') := deleteObservations ds this in
      (resolved (resp_success ok), this')
  | call_deleteRelations rs =>
      let '(ok, this') := deleteRelations rs this in
      (resolved (resp_success ok), this')
  | call_searchNodes q =>
      (resolved (resp_search (searchNodes toLowerCase q this)), this)
  | call_openNodes ns => (resolved (resp_search (openNodes ns this)), this)
  end.

Definition MockMCPClient_interface (value : Type)
    (toLowerCase : string -> string)
  : MCPClientInterface value MockMCPClient :=
  {| callTool := Mock_callTool value toLowerCase |}.

(** The module variable [mcpClient] of client.ts is [null] ([None]) until
    [setMCPClient] runs. *)
Definition setMCPClient {C : Type} (client : C) : option C := Some client.

Definition getMCPClient {value C : Type} (mcpClient : option C)
  : C + thrown value :=
  match mcpClient with
  | None =>
      inr (NewError "MCP client not initialized. Call setMCPClient() first, or use MockMCPClient for testing.")
  | Some client => inl client
  end.

(** [callMCPTool(toolName, params)]; each wrapper of operations.ts is this
    function at its own [tool_call].  The wrappers are [async]: what
    [getMCPClient] throws rejects the promise they return. *)
Definition callMCPTool {value C : Type}
    {client_interface : MCPClientInterface value C}
    (c : tool_call) (mcpClient : option C)
  : Promise value response * option C :=
  match getMCPClient mcpClient with
  | inr e => (rejected e, mcpClient)
  | inl client =>
      let '(p, client') := callTool client c in (p, Some client')
  end.

(* ================================================================= *)
(** ** sandbox.ts *)

Record ExecutionResult : Type := mkExecutionResult
  { success : bool;
    output : list string;
    error : option string;
    elapsedMs : N }.

Record ExecutionOptions : Type := mkExecutionOptions
  { timeoutMs : option N }.

(** The three methods of [sandboxConsole]. *)
Inductive console_method : Type := console_log | console_error | console_warn.

Definition console_prefix (m : console_method) : string :=
  match m with
  | console_log => ""
  | console_error => "[ERROR] "
  | console_warn => "[WARN] "
  end.

(** The body an agent submits, by what it does when the wrapped
    [(async () => { code })()] runs: it ends, throws, spins
    ([while (true) {}]), computes for a while, calls a method of the sandbox
    console, awaits one of the nine wrappers bound under [memory] (and goes on
    with what the promise settled to, so a script may catch a rejection), or
    awaits a timer.  These are the sequential bodies: one that leaves work
    behind without awaiting it (a timer callback, a promise never awaited) is
    described up to the end of its body only.
    A body that [new vm.Script] rejects is [Throw] of the syntax error. *)
Inductive script (value : Type) : Type :=
| Return
| Throw (e : thrown value)
| Loop
| Busy (ms : N) (k : script value)
| Console (m : console_method) (args : list value) (k : script value)
| AwaitTool (c : tool_call) (k : response + thrown value -> script value)
| AwaitTimer (ms : N) (k : script value).

Arguments Return {value}.
Arguments Throw {value} e.
Arguments Loop {value}.
Arguments Busy {value} ms k.
Arguments Console {value} m args k.
Arguments AwaitTool {value} c k.
Arguments AwaitTimer {value} ms k.

(** How one run of the wrapped body ends, as [executeCode] sees it. *)
Inductive ending (value : Type) : Type :=
| Fulfilled                      (* [await resultPromise] returns *)
| Raised (e : thrown value)      (* control reaches the [catch] with [e] *)
| Stuck.                         (* the event loop never gets control back *)

Arguments Fulfilled {value}.
Arguments Raised {value} e.
Arguments Stuck {value}.

(** The decimal numeral of a count of milliseconds. *)
Definition string_of_ms (n : N) : string :=
  NilZero.string_of_uint (N.to_uint n).

(** The [Error] of [script.runInContext] when its [timeout] elapses. *)
Definition timeout_Error {value : Type} (ms : N) : thrown value :=
  NewError ("Script execution timed out after " ++ string_of_ms ms ++ "ms")%string.

(** [runInContext] checks its [timeout] option before it runs anything: a
    whole number of milliseconds from 1 to 2^32 - 1, or a [RangeError]. *)
Definition valid_timeout (ms : N) : bool :=
  (1 <=? ms)%N && (ms <=? 4294967295)%N.

Definition double_quote : string := String (ascii_of_nat 34) EmptyString.

Definition timeout_RangeError {value : Type} (ms : N) : thrown value :=
  NewError ("The value of " ++ double_quote ++ "options.timeout" ++ double_quote
            ++ " is out of range. It must be >= 1 && <= 4294967295. Received "
            ++ string_of_ms ms)%string.

(** [const { timeoutMs = 30000 } = options] *)
Definition timeout_of (options : ExecutionOptions) : N :=
  match timeoutMs options with
  | Some t => t
  | None => 30000%N
  end.

Section Engine.

(** The values of the script and what the platform tells about them. *)
Variable value : Type.
(** [v === null], [v === undefined], [typeof v], [Array.isArray(v)] *)
Variable typeOf : value -> js_type.
(** [String(v)].  It is total here: an object without a usable [toString],
    on which [String] itself throws, is not among the values. *)
Variable String_ : value -> string.
(** [JSON.stringify(v, null, 2)] *)
Variable JSON_stringify : value -> string.
(** [v instanceof Error] and [v.message] *)
Variable instanceof_Error : value -> bool.
Variable Error_message : value -> string.

Context {C : Type} {client_interface : MCPClientInterface value C}.

Definition formatValue (v : value) : string :=
  match typeOf v with
  | js_null => "null"
  | js_undefined => "undefined"
  | js_string s => s
  | js_number | js_boolean => String_ v
  | js_array => JSON_stringify v
  | js_object => JSON_stringify v
  | js_other => String_ v
  end.

(** The line one console call pushes. *)
Definition console_line (m : console_method) (args : list value) : string :=
  (console_prefix m ++ String.concat " " (map formatValue args))%string.

Definition write_line (w : console_method * list value) : string :=
  console_line (fst w) (snd w).

(** [output.push(...)] *)
Definition sandboxConsole (m : console_method) (args : list value)
    (output : list string) : list string :=
  output ++ [console_line m args].

(** [error instanceof Error ? error.message : String(error)] *)
Definition errorMessage (e : thrown value) : string :=
  match e with
  | NewError msg => msg
  | ThrownValue v => if instanceof_Error v then Error_message v else String_ v
  end.

(** The state a run threads: the captured [output], the milliseconds since
    [startTime], and the module variable [mcpClient]. *)
Record run_state : Type := mkRunState
  { rs_output : list string;
    rs_clock : N;
    rs_client : option C }.

(** Running the wrapped body under [script.runInContext(context,
    { timeout })].  [watchdog = Some remaining] while control is inside
    [runInContext], with [remaining] milliseconds of [timeout] to go: this
    lasts until the body first awaits, where the async function hands its
    promise back.  From then on ([watchdog = None]) the body is resumed by
    the event loop under [await resultPromise], which no timer guards. *)
Fixpoint evaluate (timeout : N) (code : script value)
    (watchdog : option N) (s : run_state) : ending value * run_state :=
  match code with
  | Return => (Fulfilled, s)
  | Throw e => (Raised e, s)
  | Loop =>
      match watchdog with
      | Some remaining =>
          (Raised (timeout_Error timeout),
           {| rs_output := rs_output s;
              rs_clock := (rs_clock s + remaining)%N;
              rs_client := rs_client s |})
      | None => (Stuck, s)
      end
  | Busy ms k =>
      match watchdog with
      | Some remaining =>
          if (ms <=? remaining)%N
          then evaluate timeout k (Some (remaining - ms)%N)
                 {| rs_output := rs_output s;
                    rs_clock := (rs_clock s + ms)%N;
                    rs_client := rs_client s |}
          else (Raised (timeout_Error timeout),
                {| rs_output := rs_output s;
                   rs_clock := (rs_clock s + remaining)%N;
                   rs_client := rs_client s |})
      | None =>
          evaluate timeout k None
            {| rs_output := rs_output s;
               rs_clock := (rs_clock s + ms)%N;
               rs_client := rs_client s |}
      end
  | Console m args k =>
      evaluate timeout k watchdog
        {| rs_output := sandboxConsole m args (rs_output s);
           rs_clock := rs_clock s;
           rs_client := rs_client s |}
  | AwaitTool c k =>
      let '(p, client') := callMCPTool c (rs_client s) in
      evaluate timeout (k (settled p)) None
        {| rs_output := rs_output s;
           rs_clock := (rs_clock s + pending_ms p)%N;
           rs_client := client' |}
  | AwaitTimer ms k =>
      evaluate timeout k None
        {| rs_output := rs_output s;
           rs_clock := (rs_clock s + ms)%N;
           rs_client := rs_client s |}
  end.

(** [script.runInContext(context, { timeout: timeoutMs })] followed by
    [await resultPromise], from the state at [startTime]. *)
Definition run (timeout : N) (code : script value) (start : run_state)
  : ending value * run_state :=
  if valid_timeout timeout
  then evaluate timeout code (Some timeout) start
  else (Raised (timeout_RangeError timeout), start).

(** [executeCode(code, options)].  [None]: the call never returns. *)
Definition executeCode (code : script value) (options : ExecutionOptions)
    (mcpClient : option C) : option (ExecutionResult * option C) :=
  let timeout := timeout_of options in
  let start := {| rs_output := []; rs_clock := 0%N; rs_client := mcpClient |} in
  match run timeout code start with
  | (Fulfilled, s) =>
      Some ({| success := true;
               output := rs_output s;
               error := None;
               elapsedMs := rs_clock s |},
            rs_client s)
  | (Raised e, s) =>
      Some ({| success := false;
               output := rs_output s;
               error := Some (errorMessage e);
               elapsedMs := rs_clock s |},
            rs_client s)
  | (Stuck, _) => None
  end.

End Engine.

(* ================================================================= *)
(** ** Notions used to state the properties *)

(** What a [Map] keyed by entity name guarantees: one entry per key, and
    every entity filed under its own name. *)
Definition Map_wf (this : MockMCPClient) : Prop :=
  NoDup (Map_keys (entities this)) /\
  Forall (fun kv : string * EntityWithType => fst kv = name (snd kv))
         (entities this).

(** The entities of a graph that carry a given name. *)
Definition entities_named (k : string) (g : Graph) : list EntityWithType :=
  filter (fun e : EntityWithType => String.eqb (name e) k) (graph_entities g).

(** The entity [e] with [extra] appended to its observation sequence. *)
Definition with_appended (extra : list string) (e : EntityWithType)
  : EntityWithType :=
  {| ewt_type := ewt_type e;
     ewt_entity := {| name := name e;
                      entityType := entityType e;
                      observations := observations e ++ extra |} |}.

(** The strings that the entries of a batch addressed to [k] carry, in the
    order of the batch. *)
Definition contents_for (k : string) (inputs : list AddObservationInput)
  : list string :=
  List.concat (map contents
              (filter (fun o => String.eqb (entityName o) k) inputs)).

(** The entries of a batch whose entity is stored. *)
Definition addressed_to_stored (this : MockMCPClient)
    (inputs : list AddObservationInput) : list AddObservationInput :=
  filter (fun o => Map_has (entityName o) (entities this)) inputs.

(** The graph a deletion of [names] should leave: the entities filed under
    other names, and the relations with both ends outside [names]. *)
Definition graph_without (names : list string) (this : MockMCPClient)
  : Graph :=
  {| graph_entities :=
       map snd (filter (fun kv => negb (Array_includes names (fst kv)))
                       (entities this));
     graph_relations :=
       map (fun r => {| rwt_type := relation_lit; rwt_relation := r |})
           (filter (fun r => negb (Array_includes names (from r))
                             && negb (Array_includes names (to r)))
                   (relations this)) |}.

(** What the specification asks of [searchNodes]: the query occurs, letter
    case aside, inside the name, the type label or one observation. *)
Section SearchSpec.

Variable toLowerCase : string -> string.

Definition occurs_ci (q s : string) : Prop :=
  exists pre post : string,
    toLowerCase s = (pre ++ toLowerCase q ++ post)%string.

Definition matches_query (q : string) (e : Entity) : Prop :=
  occurs_ci q (name e) \/
  occurs_ci q (entityType e) \/
  exists o : string, In o (observations e) /\ occurs_ci q o.

End SearchSpec.

(** What is asked of [openNodes], read off the request list: go through the
    names in the order given, put down the stored entity for each name that
    has one, pass over the others. *)
Fixpoint openNodes_spec (names : list string) (this : MockMCPClient)
  : list EntityWithType :=
  match names with
  | [] => []
  | n :: rest =>
      match Map_get n (entities this) with
      | Some e => e :: openNodes_spec rest this
      | None => openNodes_spec rest this
      end
  end.

(** What a script does when nothing cuts it short: the console calls it
    issues, in the order it issues them, and the way its body ends, each
    tool call answered by the client. *)
Section ScriptBehaviour.

Variable value : Type.
Context {C : Type} {client_interface : MCPClientInterface value C}.

Fixpoint writes (code : script value) (mcpClient : option C)
  : list (console_method * list value) :=
  match code with
  | Return | Throw _ | Loop => []
  | Busy _ k => writes k mcpClient
  | Console m args k => (m, args) :: writes k mcpClient
  | AwaitTool c k =>
      let '(p, client') := callMCPTool c mcpClient in
      writes (k (settled p)) client'
  | AwaitTimer _ k => writes k mcpClient
  end.

Inductive body_end : Type :=
| Returns
| Throws (e : thrown value)
| Spins.

Fixpoint how_ends (code : script value) (mcpClient : option C) : body_end :=
  match code with
  | Return => Returns
  | Throw e => Throws e
  | Loop => Spins
  | Busy _ k => how_ends k mcpClient
  | Console _ _ k => how_ends k mcpClient
  | AwaitTool c k =>
      let '(p, client') := callMCPTool c mcpClient in
      how_ends (k (settled p)) client'
  | AwaitTimer _ k => how_ends k mcpClient
  end.

(** The computing a body does before it first awaits (or ends) fits in
    [budget] milliseconds. *)
Fixpoint sync_within (budget : N) (code : script value) : bool :=
  match code with
  | Return | Throw _ => true
  | Loop => false
  | Busy ms k => (ms <=? budget)%N && sync_within (budget - ms)%N k
  | Console _ _ k => sync_within budget k
  | AwaitTool _ _ | AwaitTimer _ _ => true
  end.

(** A client whose promises stay pending [extra c] milliseconds longer and
    settle to the same answers. *)
Definition slowed (extra : tool_call -> N) : MCPClientInterface value C :=
  {| callTool := fun client c =>
       let '(p, client') := callTool client c in
       ({| pending_ms := (pending_ms p + extra c)%N; settled := settled p |},
        client') |}.

End ScriptBehaviour.

(** How [executeCode] sees a body end that ran to its end. *)
Definition ending_of {value : Type} (b : body_end value) : ending value :=
  match b with
  | Returns _ => Fulfilled
  | Throws e => Raised e
  | Spins _ => Stuck
  end.

(** The part of an outcome that does not depend on the clock. *)
Definition untimed (r : ExecutionResult) : bool * list string * option string :=
  (success r, output r, error r).

(* ================================================================= *)
(** ** A concrete platform, store and scripts for worked examples *)

(** Lower-casing of the letters [A]-[Z]; other characters stay. *)
Definition lower_ascii (c : ascii) : ascii :=
  let n := nat_of_ascii c in
  if (65 <=? n)%nat && (n <=? 90)%nat then ascii_of_nat (n + 32) else c.

Fixpoint toLowerCase_ascii (s : string) : string :=
  match s with
  | EmptyString => EmptyString
  | String c s' => String (lower_ascii c) (toLowerCase_ascii s')
  end.

(** Three kinds of script values: a string, a whole number, an [Error]. *)
Inductive sample_value : Type :=
| sample_text (s : string)
| sample_count (n : N)
| sample_Error (message : string).

Definition sample_typeOf (v : sample_value) : js_type :=
  match v with
  | sample_text s => js_string s
  | sample_count _ => js_number
  | sample_Error _ => js_object
  end.

Definition sample_String (v : sample_value) : string :=
  match v with
  | sample_text s => s
  | sample_count n => string_of_ms n
  | sample_Error m => ("Error: " ++ m)%string
  end.

Definition sample_JSON_stringify (v : sample_value) : string :=
  match v with
  | sample_text s => (double_quote ++ s ++ double_quote)%string
  | sample_count n => string_of_ms n
  | sample_Error _ => "{}"
  end.

Definition sample_instanceof_Error (v : sample_value) : bool :=
  match v with
  | sample_Error _ => true
  | _ => false
  end.

Definition sample_Error_message (v : sample_value) : string :=
  match v with
  | sample_Error m => m
  | _ => ""
  end.

Definition sample_interface : MCPClientInterface sample_value MockMCPClient :=
  MockMCPClient_interface sample_value toLowerCase_ascii.

Definition sample_executeCode (I : MCPClientInterface sample_value MockMCPClient)
  : script sample_value -> ExecutionOptions -> option MockMCPClient ->
    option (ExecutionResult * option MockMCPClient) :=
  executeCode sample_typeOf sample_String sample_JSON_stringify
              sample_instanceof_Error sample_Error_message
              (client_interface := I).

Definition Server_001 : Entity :=
  {| name := "Server_001"; entityType := "Server";
     observations := ["status: active"; "region: us-east"] |}.

Definition Database_001 : Entity :=
  {| name := "Database_001"; entityType := "Database";
     observations := ["status: active"; "type: postgres"] |}.

Definition Server_001_again : Entity :=
  {| name := "Server_001"; entityType := "Host";
     observations := ["status: retired"] |}.

Definition sample_store : MockMCPClient :=
  {| entities :=
       [("Server_001", {| ewt_type := entity_lit; ewt_entity := Server_001 |});
        ("Database_001",
         {| ewt_type := entity_lit; ewt_entity := Database_001 |})];
     relations :=
       [{| from := "Server_001"; to := "Database_001";
           relationType := "connects_to" |}] |}.

(** [console.log('one'); await memory.readGraph(); console.log('two');
     await memory.openNodes(['Server_001']); console.warn('three');] *)
Definition three_lines_two_calls : script sample_value :=
  Console console_log [sample_text "one"]
    (AwaitTool call_readGraph (fun _ =>
       Console console_log [sample_text "two"]
         (AwaitTool (call_openNodes ["Server_001"]) (fun _ =>
            Console console_warn [sample_text "three"] Return)))).

(** [console.log('before'); await memory.readGraph();
     throw new Error('boom');] *)
Definition log_then_throw : script sample_value :=
  Console console_log [sample_text "before"]
    (AwaitTool call_readGraph (fun _ =>
       Throw (ThrownValue (sample_Error "boom")))).

(** [await memory.readGraph(); while (true) {}] *)
Definition await_then_spin : script sample_value :=
  AwaitTool call_readGraph (fun _ => Loop).

(* ================================================================= *)
(** ** Notions used to state further properties of the store *)

(** The entity [createEntities] files for an input. *)
Definition stored_entity (e : CreateEntityInput) : EntityWithType :=
  {| ewt_type := entity_lit; ewt_entity := e |}.

(** [r.from === rel.from && r.to === rel.to &&
     r.relationType === rel.relationType] *)
Definition same_triple (rel r : Relation) : bool :=
  String.eqb (from r) (from rel)
  && String.eqb (to r) (to rel)
  && String.eqb (relationType r) (relationType rel).

(** The entity [e] without the observations listed in [gone]. *)
Definition without_observations (gone : list string) (e : EntityWithType)
  : EntityWithType :=
  {| ewt_type := ewt_type e;
     ewt_entity :=
       {| name := name e;
          entityType := entityType e;
          observations :=
            filter (fun o => negb (Array_includes gone o)) (observations e) |} |}.

(** The strings that the entries of a deletion batch addressed to [k] list,
    in the order of the batch. *)
Definition deletions_for (k : string) (deletions : list DeleteObservationInput)
  : list string :=
  List.concat (map del_observations
                   (filter (fun d => String.eqb (del_entityName d) k)
                           deletions)).

(** The deletion batch that names what an addition batch added. *)
Definition undo_additions (inputs : list AddObservationInput)
  : list DeleteObservationInput :=
  map (fun o => {| del_entityName := entityName o;
                   del_observations := contents o |}) inputs.

(** The tool calls that may add or remove entities, and those that may add
    or remove relations. *)
Definition changes_entity_set (c : tool_call) : bool :=
  match c with
  | call_createEntities _ | call_deleteEntities _ => true
  | _ => false
  end.

Definition changes_relations (c : tool_call) : bool :=
  match c with
  | call_createRelations _ | call_deleteRelations _
  | call_deleteEntities _ => true
  | _ => false
  end.

Definition is_query (c : tool_call) : bool :=
  match c with
  | call_readGraph | call_searchNodes _ | call_openNodes _ => true
  | _ => false
  end.

(* ================================================================= *)
(** ** Notions used to state further properties of the engine *)

Section ScriptEffects.

Variable value : Type.
Context {C : Type} {client_interface : MCPClientInterface value C}.

(** The module variable [mcpClient] after the tool calls of a body that
    runs to its end. *)
Fixpoint client_after (code : script value) (mcpClient : option C)
  : option C :=
  match code with
  | Return | Throw _ | Loop => mcpClient
  | Busy _ k => client_after k mcpClient
  | Console _ _ k => client_after k mcpClient
  | AwaitTool c k =>
      let '(p, client') := callMCPTool c mcpClient in
      client_after (k (settled p)) client'
  | AwaitTimer _ k => client_after k mcpClient
  end.

(** The milliseconds a body that runs to its end takes: its computing, the
    time its tool calls stay pending, its timers. *)
Fixpoint duration (code : script value) (mcpClient : option C) : N :=
  match code with
  | Return | Throw _ | Loop => 0%N
  | Busy ms k => (ms + duration k mcpClient)%N
  | Console _ _ k => duration k mcpClient
  | AwaitTool c k =>
      let '(p, client') := callMCPTool c mcpClient in
      (pending_ms p + duration (k (settled p)) client')%N
  | AwaitTimer ms k => (ms + duration k mcpClient)%N
  end.

End ScriptEffects.

(* ================================================================= *)
(** ** client.ts: callTool as written, a switch over the tool name *)

(** [params: Record<string, unknown>]: the object handed to [callTool].
    Each key the switch reads is either absent or holds a value of the type
    the switch casts it to. *)
Record tool_params : Type := mkToolParams
  { p_entities : option (list CreateEntityInput);
    p_relations : option (list CreateRelationInput);
    p_observations : option (list AddObservationInput);
    p_entityNames : option (list string);
    p_deletions : option (list DeleteObservationInput);
    p_query : option string;
    p_names : option (list string) }.

(** [{}] *)
Definition no_params : tool_params :=
  {| p_entities := None; p_relations := None; p_observations := None;
     p_entityNames := None; p_deletions := None; p_query := None;
     p_names := None |}.

(** The parameter object each wrapper of operations.ts builds. *)
Definition params_of (c : tool_call) : tool_params :=
  match c with
  | call_readGraph => no_params
  | call_createEntities es =>
      {| p_entities := Some es; p_relations := None; p_observations := None;
         p_entityNames := None; p_deletions := None; p_query := None;
         p_names := None |}
  | call_createRelations rs =>
      {| p_entities := None; p_relations := Some rs; p_observations := None;
         p_entityNames := None; p_deletions := None; p_query := None;
         p_names := None |}
  | call_addObservations os =>
      {| p_entities := None; p_relations := None; p_observations := Some os;
         p_entityNames := None; p_deletions := None; p_query := None;
         p_names := None |}
  | call_deleteEntities ns =>
      {| p_entities := None; p_relations := None; p_observations := None;
         p_entityNames := Some ns; p_deletions := None; p_query := None;
         p_names := None |}
  | call_deleteObservations ds =>
      {| p_entities := None; p_relations := None; p_observations := None;
         p_entityNames := None; p_deletions := Some ds; p_query := None;
         p_names := None |}
  | call_deleteRelations rs =>
      {| p_entities := None; p_relations := Some rs; p_observations := None;
         p_entityNames := None; p_deletions := None; p_query := None;
         p_names := None |}
  | call_searchNodes q =>
      {| p_entities := None; p_relations := None; p_observations := None;
         p_entityNames := None; p_deletions := None; p_query := Some q;
         p_names := None |}
  | call_openNodes ns =>
      {| p_entities := None; p_relations := None; p_observations := None;
         p_entityNames := None; p_deletions := None; p_query := None;
         p_names := Some ns |}
  end.

(** The names the switch knows. *)
Definition tool_names : list string :=
  ["read_graph"; "create_entities"; "create_relations"; "add_observations";
   "delete_entities"; "delete_observations"; "delete_relations";
   "search_nodes"; "open_nodes"].

Section CallToolByName.

Variable value : Type.
Variable toLowerCase : string -> string.
(** The [TypeError] the platform raises where a method uses its parameter
    and the parameter is [undefined], by the key that was absent. *)
Variable undefined_TypeError : string -> thrown value.

(** [MockMCPClient.callTool(toolName, params)].  An absent parameter
    reaches the method as [undefined]: the loops and [names.map] fail on it
    at once, before anything is stored; [searchNodes] fails on it in its
    filter callback, that is when there is an entity to test. *)
Definition Mock_callTool_by_name (this : MockMCPClient) (toolName : string)
    (params : tool_params) : Promise value response * MockMCPClient :=
  if String.eqb toolName "read_graph" then
    (resolved (resp_graph (readGraph this)), this)
  else if String.eqb toolName "create_entities" then
    match p_entities params with
    | Some es =>
        let '(created, this') := createEntities es this in
        (resolved (resp_entities created), this')
    | None => (rejected (undefined_TypeError "entities"), this)
    end
  else if String.eqb toolName "create_relations" then
    match p_relations params with
    | Some rs =>
        let '(rs', this') := createRelations rs this in
        (resolved (resp_relations rs'), this')
    | None => (rejected (undefined_TypeError "relations"), this)
    end
  else if String.eqb toolName "add_observations" then
    match p_observations params with
    | Some os =>
        let '(results, this') := addObservations os this in
        (resolved (resp_results results), this')
    | None => (rejected (undefined_TypeError "observations"), this)
    end
  else if String.eqb toolName "delete_entities" then
    match p_entityNames params with
    | Some ns =>
        let '((ok, msg), this') := deleteEntities ns this in
        (resolved (resp_deleted ok msg), this')
    | None => (rejected (undefined_TypeError "entityNames"), this)
    end
  else if String.eqb toolName "delete_observations" then
    match p_deletions params with
    | Some ds =>
        let '(ok, this') := deleteObservations ds this in
        (resolved (resp_success ok), this')
    | None => (rejected (undefined_TypeError "deletions"), this)
    end
  else if String.eqb toolName "delete_relations" then
    match p_relations params with
    | Some rs =>
        let '(ok, this') := deleteRelations rs this in
        (resolved (resp_success ok), this')
    | None => (rejected (undefined_TypeError "relations"), this)
    end
  else if String.eqb toolName "search_nodes" then
    match p_query params with
    | Some q => (resolved (resp_search (searchNodes toLowerCase q this)), this)
    | None =>
        match entities this with
        | [] =>
            (resolved (resp_search {| graph_entities := [];
                                      graph_relations := [] |}), this)
        | _ :: _ => (rejected (undefined_TypeError "query"), this)
        end
    end
  else if String.eqb toolName "open_nodes" then
    match p_names params with
    | Some ns => (resolved (resp_search (openNodes ns this)), this)
    | None => (rejected (undefined_TypeError "names"), this)
    end
  else
    (rejected (NewError ("Unknown tool: " ++ toolName)%string), this).

End CallToolByName.

(* ================================================================= *)
(** ** The code-executor server: the get_record_count tool *)

Section RecordCount.

Variable value : Type.
Variable typeOf : value -> js_type.
Variables String_ JSON_stringify : value -> string.
Variable instanceof_Error : value -> bool.
Variable Error_message : value -> string.
(** The number [n] as a script value. *)
Variable number : nat -> value.
(** The [TypeError] of reading [length] off an absent [entities]. *)
Variable undefined_TypeError : string -> thrown value.

Context {C : Type} {client_interface : MCPClientInterface value C}.

(** [const g = await memory.readGraph(); console.log(g.entities.length);]
    Whatever the promise resolves to is used as it is: an answer with an
    [entities] array has a length, any other answer has none. *)
Definition record_count_script : script value :=
  AwaitTool call_readGraph (fun answer =>
    match answer with
    | inl (resp_graph g) | inl (resp_search g) =>
        Console console_log [number (List.length (graph_entities g))] Return
    | inl (resp_entities created) =>
        Console console_log [number (List.length created)] Return
    | inl _ => Throw (undefined_TypeError "entities")
    | inr e => Throw e
    end).

(** The handler of [get_record_count]: the text it answers with, and the
    client after the run.  [result.output[0] || '0'] *)
Definition get_record_count (mcpClient : option C)
  : option (string * option C) :=
  match executeCode typeOf String_ JSON_stringify instanceof_Error
                    Error_message record_count_script
                    {| timeoutMs := None |} mcpClient with
  | Some (result, mcpClient') =>
      let count :=
        match output result with
        | first :: _ => if String.eqb first "" then "0" else first
        | [] => "0"
        end in
      Some (("Records in memory: " ++ count)%string, mcpClient')
  | None => None
  end.

End RecordCount.

(* ================================================================= *)
(** ** More scripts and data for worked examples *)

(** [await memory.createEntities([Server_001_again]);
     throw new Error('boom');] *)
Definition create_then_throw : script sample_value :=
  AwaitTool (call_createEntities [Server_001_again]) (fun _ =>
    Throw (ThrownValue (sample_Error "boom"))).

(** [await memory.readGraph();] with nothing around it to catch. *)
Definition uncaught_readGraph : script sample_value :=
  AwaitTool call_readGraph (fun answer =>
    match answer with
    | inl _ => Return
    | inr e => Throw e
    end).

(** Whole numbers as sample values. *)
Definition sample_number (n : nat) : sample_value := sample_count (N.of_nat n).

(** A stand-in for the platform's [TypeError] on an absent parameter. *)
Definition sample_undefined_TypeError (key : string) : thrown sample_value :=
  NewError (key ++ " is not iterable")%string.

(* ================================================================= *)
(** * Part II: properties *)

(* ================================================================= *)
(** * Properties of the containers *)

Section MapFacts.

Variable V : Type.
Implicit Types (m : Map V) (k : string) (v : V).

Lemma Map_get_set_same m k v : Map_get k (Map_set k v m) = Some v.
Proof.
  induction m as [|[k' v'] m IH]; simpl.
  - now rewrite String.eqb_refl.
  - destruct (String.eqb k' k) eqn:E; simpl.
    + now rewrite String.eqb_refl.
    + now rewrite E.
Qed.

Lemma Map_get_set_other m k k' v :
  k' <> k -> Map_get k' (Map_set k v m) = Map_get k' m.
Proof.
  intros Hne.
  assert (Hkk : String.eqb k k' = false) by (apply String.eqb_neq; congruence).
  induction m as [|[k0 v0] m IH]; simpl.
  - now rewrite Hkk.
  - destruct (String.eqb k0 k) eqn:E; simpl.
    + apply String.eqb_eq in E; subst k0. now rewrite Hkk.
    + now rewrite IH.
Qed.

Lemma Map_get_In m k v : Map_get k m = Some v -> In (k, v) m.
Proof.
  induction m as [|[k' v'] m IH]; simpl; [discriminate|].
  destruct (String.eqb k' k) eqn:E.
  - apply String.eqb_eq in E. intros [= ->]. left; congruence.
  - intros H; right; auto.
Qed.

Lemma Map_get_None_keys m k : Map_get k m = None <-> ~ In k (Map_keys m).
Proof.
  induction m as [|[k' v'] m IH]; simpl.
  - tauto.
  - destruct (String.eqb k' k) eqn:E.
    + apply String.eqb_eq in E. split; [discriminate | intros H; exfalso; auto].
    + apply String.eqb_neq in E. rewrite IH. tauto.
Qed.

(** The keys after [set]: unchanged for a stored key, one more at the end
    otherwise. *)
Lemma Map_keys_set m k v :
  Map_keys (Map_set k v m) =
  if Map_has k m then Map_keys m else Map_keys m ++ [k].
Proof.
  unfold Map_has.
  induction m as [|[k' v'] m IH]; simpl; [reflexivity|].
  destruct (String.eqb k' k) eqn:E; simpl.
  - apply String.eqb_eq in E. now subst.
  - rewrite IH. now destruct (Map_get k m).
Qed.

Lemma Map_set_NoDup m k v :
  NoDup (Map_keys m) -> NoDup (Map_keys (Map_set k v m)).
Proof.
  intros Hnd. rewrite Map_keys_set. unfold Map_has.
  destruct (Map_get k m) eqn:G; [assumption|].
  apply Map_get_None_keys in G.
  apply NoDup_app; [assumption | repeat constructor; simpl; tauto | ].
  intros x Hx [<-|[]]. contradiction.
Qed.

Lemma Map_delete_NoDup m k :
  NoDup (Map_keys m) -> NoDup (Map_keys (Map_delete k m)).
Proof.
  unfold Map_delete, Map_keys.
  induction m as [|[k' v'] m IH]; simpl; intros Hnd; [constructor|].
  inversion Hnd as [|? ? Hnotin Hnd']; subst.
  destruct (String.eqb k' k); simpl; [now apply IH|].
  constructor; [|now apply IH].
  intros Hin. apply Hnotin.
  apply in_map_iff in Hin as [[k0 v0] [Hk Hin]].
  apply filter_In in Hin as [Hin _].
  apply in_map_iff. now exists (k0, v0).
Qed.

Lemma Map_get_delete m k k' :
  Map_get k' (Map_delete k m) = if String.eqb k k' then None else Map_get k' m.
Proof.
  unfold Map_delete.
  induction m as [|[k0 v0] m IH]; simpl.
  - now destruct (String.eqb k k').
  - destruct (String.eqb k0 k) eqn:E; simpl.
    + apply String.eqb_eq in E; subst k0. rewrite IH.
      now destruct (String.eqb k k').
    + rewrite IH. destruct (String.eqb k k') eqn:E'; [|reflexivity].
      apply String.eqb_eq in E'; subst k'. now rewrite E.
Qed.

(** Every stored pair satisfies [P] after [set] when it did before and the
    new pair does. *)
Lemma Map_set_Forall (P : string * V -> Prop) m k v :
  Forall P m -> P (k, v) -> Forall P (Map_set k v m).
Proof.
  intros Hall Hnew.
  induction m as [|[k' v'] m IH]; simpl.
  - now repeat constructor.
  - inversion Hall; subst.
    destruct (String.eqb k' k); constructor; auto.
Qed.

Lemma Map_set_In m k v k' v' :
  In (k', v') (Map_set k v m) -> (k', v') = (k, v) \/ In (k', v') m.
Proof.
  induction m as [|[k0 v0] m IH]; simpl.
  - intros [H|[]]; auto.
  - destruct (String.eqb k0 k); simpl; intros [H|H]; auto.
    apply IH in H as [H|H]; auto.
Qed.

End MapFacts.

(** [s.includes(q)] holds exactly when [q] occurs in [s]. *)
Lemma prefix_spec (q s : string) :
  String.prefix q s = true <-> exists post, s = (q ++ post)%string.
Proof.
  revert s; induction q as [|a q IH]; intros s; simpl.
  - split; [intros _; now exists s | intros _; now destruct s].
  - destruct s as [|b s]; [split; [discriminate | intros [post H]; discriminate]|].
    simpl. destruct (Ascii.ascii_dec a b) as [->|Hne].
    + rewrite IH. split; intros [post H]; exists post; simpl in *; congruence.
    + split; [discriminate | intros [post H]; simpl in H; congruence].
Qed.

Lemma includes_spec (s q : string) :
  includes s q = true <-> exists pre post, s = (pre ++ q ++ post)%string.
Proof.
  induction s as [|a s IH]; cbn [includes].
  - rewrite orb_false_r, prefix_spec. split.
    + intros [post H]. now exists ""%string, post.
    + intros [pre [post H]]. destruct pre; simpl in H; [now exists post|discriminate].
  - rewrite orb_true_iff, prefix_spec, IH. split.
    + intros [[post H]|[pre [post H]]].
      * now exists ""%string, post.
      * exists (String a pre), post. simpl. now rewrite H.
    + intros [pre [post H]]. destruct pre as [|b pre]; simpl in H.
      * left. now exists post.
      * right. exists pre, post. congruence.
Qed.

Lemma filter_defined_app (A : Type) (xs ys : list (option A)) :
  filter_defined (xs ++ ys) = filter_defined xs ++ filter_defined ys.
Proof.
  induction xs as [|[x|] xs IH]; simpl; congruence.
Qed.

Lemma filter_filter (A : Type) (p q : A -> bool) (l : list A) :
  filter p (filter q l) = filter (fun x => q x && p x) l.
Proof.
  induction l as [|x l IH]; simpl; [reflexivity|].
  destruct (q x); simpl; [destruct (p x)|]; now rewrite IH.
Qed.

(* ================================================================= *)
(** * The store invariant *)

Lemma Map_wf_new : Map_wf new_MockMCPClient.
Proof. split; constructor. Qed.

Lemma Map_wf_set (this : MockMCPClient) (e : EntityWithType) rs :
  Map_wf this ->
  Map_wf {| entities := Map_set (name e) e (entities this); relations := rs |}.
Proof.
  intros [Hnd Hall]. split; simpl.
  - now apply Map_set_NoDup.
  - now apply Map_set_Forall.
Qed.

Lemma Map_wf_get_name (this : MockMCPClient) k (e : EntityWithType) :
  Map_wf this -> Map_get k (entities this) = Some e -> name e = k.
Proof.
  intros [_ Hall] Hget. apply Map_get_In in Hget.
  rewrite Forall_forall in Hall. now specialize (Hall _ Hget).
Qed.

(** In a well-formed store the entity found under a name is the only one
    listed with that name. *)
Lemma Map_wf_named (this : MockMCPClient) k (e : EntityWithType) :
  Map_wf this -> Map_get k (entities this) = Some e ->
  entities_named k (readGraph this) = [e].
Proof.
  unfold Map_wf, entities_named, readGraph, Map_values, Map_keys; simpl.
  generalize (entities this) as m.
  induction m as [|[k0 e0] m IH]; simpl; intros [Hnd Hall] Hget; [discriminate|].
  inversion Hnd as [|? ? Hnotin Hnd']; subst.
  inversion Hall as [|? ? Hk0 Hall']; subst. simpl in Hk0.
  destruct (String.eqb k0 k) eqn:E.
  - injection Hget as ->. apply String.eqb_eq in E. subst k0.
    rewrite <- Hk0 at 1. rewrite String.eqb_refl. f_equal.
    clear IH Hnd Hall.
    induction m as [|[k1 e1] m IH]; simpl; [reflexivity|].
    inversion Hall' as [|? ? Hk1 Hall'']; subst. simpl in Hk1, Hnotin.
    inversion Hnd' as [|? ? _ Hnd'']; subst.
    destruct (String.eqb (name e1) (name e)) eqn:E1.
    + apply String.eqb_eq in E1. exfalso. apply Hnotin. left. congruence.
    + apply IH; auto.
  - rewrite <- Hk0, E. now apply IH.
Qed.

(* ================================================================= *)
(** * createEntities *)

Lemma createEntities_fold_created inputs acc :
  snd (fold_left createEntities_step inputs acc) = snd acc ++ inputs.
Proof.
  revert acc; induction inputs as [|e l IH]; intros [this created]; simpl.
  - now rewrite app_nil_r.
  - rewrite IH. simpl. now rewrite <- app_assoc.
Qed.

Lemma createEntities_fold_relations inputs acc :
  relations (fst (fold_left createEntities_step inputs acc)) =
  relations (fst acc).
Proof.
  revert acc; induction inputs as [|e l IH]; intros [this created]; simpl;
    [reflexivity|now rewrite IH].
Qed.

(** Inputs under other names leave the entry of [k] alone. *)
Lemma createEntities_fold_get_other inputs acc k :
  (forall e' : CreateEntityInput, In e' inputs -> name e' <> k) ->
  Map_get k (entities (fst (fold_left createEntities_step inputs acc))) =
  Map_get k (entities (fst acc)).
Proof.
  revert acc; induction inputs as [|e l IH]; intros [this created] Hne; simpl;
    [reflexivity|].
  rewrite IH by (intros e' He'; apply Hne; now right). simpl.
  apply Map_get_set_other. intros ->. apply (Hne e); [now left|reflexivity].
Qed.

Lemma createEntities_fold_wf inputs acc :
  Map_wf (fst acc) -> Map_wf (fst (fold_left createEntities_step inputs acc)).
Proof.
  revert acc; induction inputs as [|e l IH]; intros [this created] Hwf; simpl;
    [assumption|].
  apply IH. simpl.
  exact (Map_wf_set
           {| ewt_type := entity_lit;
              ewt_entity := {| name := name e;
                               entityType := entityType e;
                               observations := observations e |} |}
           (relations this) Hwf).
Qed.

Lemma createEntities_result inputs this :
  createEntities inputs this =
  (snd (fold_left createEntities_step inputs (this, [])),
   fst (fold_left createEntities_step inputs (this, []))).
Proof.
  unfold createEntities.
  now destruct (fold_left createEntities_step inputs (this, [])).
Qed.

(** C4.  [createEntities] with an input whose name is already stored
    overwrites the stored entity: after the call the store holds, under that
    name, exactly the entity built from the last input of that name, with
    that input's type and observations and nothing of the prior entity's; the
    call returns its inputs and cannot fail. *)
Theorem createEntities_overwrites_existing :
  forall (this : MockMCPClient) (earlier later : list CreateEntityInput)
         (e : CreateEntityInput) (prior : EntityWithType),
    Map_wf this ->
    Map_get (name e) (entities this) = Some prior ->
    (forall e' : CreateEntityInput, In e' later -> name e' <> name e) ->
    let result := createEntities (earlier ++ e :: later) this in
    let stored := {| ewt_type := entity_lit; ewt_entity := e |} in
    fst result = earlier ++ e :: later /\
    Map_get (name e) (entities (snd result)) = Some stored /\
    entities_named (name e) (readGraph (snd result)) = [stored] /\
    (prior <> stored -> ~ In prior (graph_entities (readGraph (snd result)))).
Proof.
  intros this earlier later e prior Hwf Hprior Hlast result stored.
  subst result. rewrite createEntities_result. simpl fst; simpl snd.
  assert (Hget : Map_get (name e)
            (entities (fst (fold_left createEntities_step
                              (earlier ++ e :: later) (this, []))))
          = Some stored).
  { rewrite fold_left_app. simpl fold_left.
    rewrite createEntities_fold_get_other by assumption.
    destruct (fold_left createEntities_step earlier (this, [])) as [t c].
    simpl. rewrite Map_get_set_same. subst stored. now destruct e. }
  assert (Hwf' : Map_wf (fst (fold_left createEntities_step
                                (earlier ++ e :: later) (this, []))))
    by now apply createEntities_fold_wf.
  assert (Hnamed := Map_wf_named _ Hwf' Hget).
  repeat split.
  - now rewrite createEntities_fold_created.
  - exact Hget.
  - exact Hnamed.
  - intros Hneq Hin. apply Hneq.
    assert (Hn : name prior = name e) by now apply (Map_wf_get_name _ Hwf).
    assert (Hin' : In prior (entities_named (name e)
              (readGraph (fst (fold_left createEntities_step
                                 (earlier ++ e :: later) (this, []))))))
      by (apply filter_In; split; [exact Hin | now apply String.eqb_eq]).
    rewrite Hnamed in Hin'. destruct Hin' as [<-|[]]. reflexivity.
Qed.

(* ================================================================= *)
(** * addObservations *)

Lemma with_appended_nil (e : EntityWithType) : with_appended [] e = e.
Proof.
  destruct e as [t [n ty obs]]. unfold with_appended; simpl.
  now rewrite app_nil_r.
Qed.

Lemma with_appended_app (xs ys : list string) (e : EntityWithType) :
  with_appended ys (with_appended xs e) = with_appended (xs ++ ys) e.
Proof. unfold with_appended; simpl. now rewrite app_assoc. Qed.

Lemma Map_has_set_stored (V : Type) (m : Map V) k k' (v : V) :
  Map_has k m = true -> Map_has k' (Map_set k v m) = Map_has k' m.
Proof.
  unfold Map_has. intros Hk.
  destruct (String.eqb k k') eqn:E.
  - apply String.eqb_eq in E; subst k'. rewrite Map_get_set_same.
    now destruct (Map_get k m).
  - apply String.eqb_neq in E. rewrite Map_get_set_other by congruence.
    reflexivity.
Qed.

(** One pass of the loop, by whether the addressed entity is stored. *)
Lemma addObservations_step_stored this results o entity :
  Map_get (entityName o) (entities this) = Some entity ->
  addObservations_step (this, results) o =
  ({| entities := Map_set (entityName o) (with_appended (contents o) entity)
                          (entities this);
      relations := relations this |},
   results ++ [{| res_entityName := entityName o;
                  addedObservations := contents o |}]).
Proof. intros H. unfold addObservations_step. now rewrite H. Qed.

Lemma addObservations_step_missing this results o :
  Map_get (entityName o) (entities this) = None ->
  addObservations_step (this, results) o = (this, results).
Proof. intros H. unfold addObservations_step. now rewrite H. Qed.

Lemma addressed_to_stored_set this inputs k v rs :
  Map_has k (entities this) = true ->
  addressed_to_stored
    {| entities := Map_set k v (entities this); relations := rs |} inputs =
  addressed_to_stored this inputs.
Proof.
  intros Hk. unfold addressed_to_stored. apply filter_ext. intros o. simpl.
  now apply Map_has_set_stored.
Qed.

Lemma addressed_to_stored_cons this o l :
  addressed_to_stored this (o :: l) =
  if Map_has (entityName o) (entities this)
  then o :: addressed_to_stored this l
  else addressed_to_stored this l.
Proof. reflexivity. Qed.

Lemma Map_has_get (V : Type) (m : Map V) k :
  Map_has k m = match Map_get k m with Some _ => true | None => false end.
Proof. reflexivity. Qed.

Ltac add_step this o :=
  let G := fresh "G" in
  let ent := fresh "ent" in
  destruct (Map_get (entityName o) (entities this)) as [ent|] eqn:G;
  [ rewrite (addObservations_step_stored _ _ _ G)
  | rewrite (addObservations_step_missing _ _ _ G) ].

Lemma addObservations_fold_results inputs this results :
  snd (fold_left addObservations_step inputs (this, results)) =
  results ++
  map (fun o => {| res_entityName := entityName o;
                   addedObservations := contents o |})
      (addressed_to_stored this inputs).
Proof.
  revert this results; induction inputs as [|o l IH]; intros this results.
  - simpl. now rewrite app_nil_r.
  - cbn [fold_left]. add_step this o.
    + rewrite IH. rewrite addressed_to_stored_set
        by (now rewrite Map_has_get, G).
      rewrite addressed_to_stored_cons, Map_has_get, G.
      cbn [map]. now rewrite <- app_assoc.
    + rewrite IH. now rewrite addressed_to_stored_cons, Map_has_get, G.
Qed.

Lemma addObservations_fold_get inputs this results k :
  Map_get k (entities (fst (fold_left addObservations_step inputs
                                      (this, results)))) =
  option_map (with_appended (contents_for k inputs))
             (Map_get k (entities this)).
Proof.
  revert this results; induction inputs as [|o l IH]; intros this results.
  - simpl. unfold contents_for; simpl.
    destruct (Map_get k (entities this)); simpl; [|reflexivity].
    now rewrite with_appended_nil.
  - cbn [fold_left]. unfold contents_for. cbn [filter].
    add_step this o.
    + rewrite IH. cbn [entities].
      destruct (String.eqb (entityName o) k) eqn:E.
      * apply String.eqb_eq in E; subst k.
        rewrite Map_get_set_same, G. cbn [option_map map List.concat].
        now rewrite with_appended_app.
      * apply String.eqb_neq in E.
        rewrite Map_get_set_other by congruence. reflexivity.
    + rewrite IH.
      destruct (String.eqb (entityName o) k) eqn:E; [|reflexivity].
      apply String.eqb_eq in E; subst k. now rewrite G.
Qed.

Lemma addObservations_fold_shape inputs this results :
  Map_keys (entities (fst (fold_left addObservations_step inputs
                                     (this, results)))) =
  Map_keys (entities this) /\
  relations (fst (fold_left addObservations_step inputs (this, results))) =
  relations this.
Proof.
  revert this results; induction inputs as [|o l IH]; intros this results.
  - now split.
  - cbn [fold_left]. add_step this o.
    + destruct (IH {| entities := Map_set (entityName o)
                                    (with_appended (contents o) ent)
                                    (entities this);
                      relations := relations this |}
                   (results ++ [{| res_entityName := entityName o;
                                   addedObservations := contents o |}]))
        as [Hk Hr].
      rewrite Hk, Hr. cbn [entities relations]. split; [|reflexivity].
      now rewrite Map_keys_set, Map_has_get, G.
    + apply IH.
Qed.

(** Entries addressed to names that are not stored can be struck from the
    batch: the loop ends in the same state with the same results. *)
Lemma addObservations_fold_skips inputs this results :
  fold_left addObservations_step inputs (this, results) =
  fold_left addObservations_step (addressed_to_stored this inputs)
            (this, results).
Proof.
  revert this results; induction inputs as [|o l IH]; intros this results.
  - reflexivity.
  - rewrite addressed_to_stored_cons, Map_has_get. cbn [fold_left].
    destruct (Map_get (entityName o) (entities this)) as [ent|] eqn:G.
    + cbn [fold_left]. rewrite (addObservations_step_stored _ _ _ G).
      rewrite IH. rewrite addressed_to_stored_set
        by (now rewrite Map_has_get, G).
      reflexivity.
    + rewrite (addObservations_step_missing _ _ _ G). apply IH.
Qed.

Lemma addObservations_result inputs this :
  addObservations inputs this =
  (snd (fold_left addObservations_step inputs (this, [])),
   fst (fold_left addObservations_step inputs (this, []))).
Proof.
  unfold addObservations.
  now destruct (fold_left addObservations_step inputs (this, [])).
Qed.


(* ================================================================= *)
(** * deleteEntities *)

Lemma deleteEntities_fold names this :
  readGraph (fold_left deleteEntities_step names this) =
  graph_without names this.
Proof.
  revert this; induction names as [|n ns IH]; intros this.
  - unfold graph_without, readGraph, Map_values; simpl.
    f_equal; f_equal.
    + induction (entities this) as [|kv m IHm]; simpl; congruence.
    + induction (relations this) as [|r m IHm]; simpl; congruence.
  - cbn [fold_left]. rewrite IH. unfold graph_without, deleteEntities_step.
    cbn [entities relations]. unfold Map_delete. rewrite !filter_filter.
    f_equal; f_equal; apply filter_ext; intros x; unfold Array_includes;
      cbn [existsb].
    + now rewrite negb_orb.
    + destruct (String.eqb (from x) n), (String.eqb (to x) n),
        (existsb (String.eqb (from x)) ns), (existsb (String.eqb (to x)) ns);
        reflexivity.
Qed.

(** C6.  After [deleteEntities names], [readGraph] lists the entities that
    were stored under names outside [names] and the relations whose [from]
    and [to] are both outside [names], each unchanged and in its old order;
    the entities stored under a listed name and the relations touching one
    are gone; a listed name that is not stored is no error: the call always
    answers with its success acknowledgement. *)
Theorem deleteEntities_cascades :
  forall (names : list string) (this : MockMCPClient),
    fst (deleteEntities names this) = (true, "Entities deleted successfully") /\
    readGraph (snd (deleteEntities names this)) = graph_without names this.
Proof.
  intros names this. split; [reflexivity|].
  unfold deleteEntities. cbn [snd]. apply deleteEntities_fold.
Qed.

(* ================================================================= *)
(** * Every operation keeps the store well formed *)

Lemma fold_left_invariant (A B : Type) (P : A -> Prop) (f : A -> B -> A)
    (l : list B) (a : A) :
  (forall a b, P a -> P (f a b)) -> P a -> P (fold_left f l a).
Proof.
  intros Hstep. revert a. induction l as [|b l IH]; intros a Ha; simpl; auto.
Qed.

Lemma Map_wf_entities (this this' : MockMCPClient) :
  entities this' = entities this -> Map_wf this -> Map_wf this'.
Proof. unfold Map_wf. now intros ->. Qed.

Lemma addObservations_step_wf acc o :
  Map_wf (fst acc) -> Map_wf (fst (addObservations_step acc o)).
Proof.
  destruct acc as [this results]. cbn [fst]. intros Hwf.
  add_step this o; cbn [fst]; [|assumption].
  pose proof (Map_wf_get_name _ Hwf G) as Hname.
  rewrite <- Hname.
  exact (Map_wf_set (with_appended (contents o) ent) (relations this) Hwf).
Qed.

Lemma deleteObservations_step_wf this deletion :
  Map_wf this -> Map_wf (deleteObservations_step this deletion).
Proof.
  intros Hwf. unfold deleteObservations_step.
  destruct (Map_get (del_entityName deletion) (entities this)) as [ent|] eqn:G;
    [|assumption].
  pose proof (Map_wf_get_name _ Hwf G) as Hname.
  rewrite <- Hname.
  exact (Map_wf_set
           {| ewt_type := ewt_type ent;
              ewt_entity :=
                {| name := name ent;
                   entityType := entityType ent;
                   observations :=
                     filter (fun o => negb (Array_includes
                                              (del_observations deletion) o))
                            (observations ent) |} |}
           (relations this) Hwf).
Qed.

Lemma deleteEntities_step_wf this n :
  Map_wf this -> Map_wf (deleteEntities_step this n).
Proof.
  intros [Hnd Hall]. split; cbn [deleteEntities_step entities].
  - now apply Map_delete_NoDup.
  - unfold Map_delete. rewrite Forall_forall in *.
    intros kv Hin. apply filter_In in Hin as [Hin _]. auto.
Qed.

(** X25.  The store invariant (one entry per name, every entity filed under
    its own name) is kept by each of the nine tool calls. *)
Lemma Mock_callTool_wf (value : Type) (toLowerCase : string -> string)
    (this : MockMCPClient) (c : tool_call) :
  Map_wf this -> Map_wf (snd (Mock_callTool value toLowerCase this c)).
Proof.
  intros Hwf. destruct c; cbn [Mock_callTool snd]; try assumption.
  - rewrite createEntities_result. cbn [snd].
    now apply createEntities_fold_wf.
  - unfold createRelations. cbn [snd].
    apply fold_left_invariant; [|assumption].
    intros a b Ha. now apply (Map_wf_entities (this := a)).
  - rewrite addObservations_result. cbn [snd].
    apply (fold_left_invariant (fun acc => Map_wf (fst acc)));
      [|assumption].
    intros a b. apply addObservations_step_wf.
  - unfold deleteEntities. cbn [snd].
    apply fold_left_invariant; [|assumption].
    intros a b. apply deleteEntities_step_wf.
  - unfold deleteObservations. cbn [snd].
    apply fold_left_invariant; [|assumption].
    intros a b. apply deleteObservations_step_wf.
  - unfold deleteRelations. cbn [snd].
    apply fold_left_invariant; [|assumption].
    intros a b Ha. now apply (Map_wf_entities (this := a)).
Qed.

(** X26.  After [loadData] the store satisfies the invariant, whatever was
    loaded and whatever the client held: a name the loaded graph lists more
    than once ends with one entry. *)
Lemma loadData_wf (graph : Graph) (this : MockMCPClient) :
  Map_wf (loadData graph this).
Proof.
  unfold loadData.
  apply fold_left_invariant.
  - intros a b Ha. now apply (Map_wf_entities (this := a)).
  - apply fold_left_invariant.
    + intros a b Ha. exact (Map_wf_set b (relations a) Ha).
    + split; constructor.
Qed.

(* ================================================================= *)
(** * searchNodes *)

Section SearchFacts.

Variable toLowerCase : string -> string.

Lemma includes_occurs_ci (q s : string) :
  includes (toLowerCase s) (toLowerCase q) = true <-> occurs_ci toLowerCase q s.
Proof. apply includes_spec. Qed.

Lemma searchNodes_match_spec (q : string) (e : EntityWithType) :
  searchNodes_match toLowerCase q e = true <-> matches_query toLowerCase q e.
Proof.
  unfold searchNodes_match, matches_query.
  rewrite !orb_true_iff, !includes_occurs_ci, existsb_exists.
  split.
  - intros [[H|H]|[o [Hin H]]]; auto.
    right; right. exists o. now rewrite <- includes_occurs_ci.
  - intros [H|[H|[o [Hin H]]]]; auto.
    right. exists o. now rewrite includes_occurs_ci.
Qed.

(** C7.  [searchNodes q] lists exactly the stored entities in which [q]
    occurs, letter case aside, as a substring of the name, of the type label
    or of at least one observation: every such entity is listed, no other
    is, and the answer carries no relations. *)
Theorem searchNodes_exact :
  forall (q : string) (this : MockMCPClient),
    graph_relations (searchNodes toLowerCase q this) = [] /\
    forall e : EntityWithType,
      In e (graph_entities (searchNodes toLowerCase q this)) <->
      In e (graph_entities (readGraph this)) /\
      matches_query toLowerCase q e.
Proof.
  intros q this. split; [reflexivity|].
  intros e. unfold searchNodes, readGraph. cbn [graph_entities].
  now rewrite filter_In, searchNodes_match_spec.
Qed.

End SearchFacts.

(* ================================================================= *)
(** * readGraph *)

(** C9.  Two [readGraph] calls in a row, with nothing in between, settle to
    the same graph, entity for entity and relation for relation, and leave
    the client as it was: at the client's [callTool], and through the
    [readGraph] wrapper of operations.ts. *)
Theorem readGraph_twice_identical :
  forall (value : Type) (toLowerCase : string -> string)
         (this : MockMCPClient),
    let mock := MockMCPClient_interface value toLowerCase in
    let first := Mock_callTool value toLowerCase this call_readGraph in
    let second := Mock_callTool value toLowerCase (snd first) call_readGraph in
    let first' :=
      callMCPTool (client_interface := mock) call_readGraph
                  (setMCPClient this) in
    let second' :=
      callMCPTool (client_interface := mock) call_readGraph (snd first') in
    (settled (fst first) = inl (resp_graph (readGraph this)) /\
     settled (fst second) = settled (fst first) /\
     snd second = this) /\
    (settled (fst first') = inl (resp_graph (readGraph this)) /\
     settled (fst second') = settled (fst first') /\
     snd second' = setMCPClient this).
Proof. intros value toLowerCase this. cbn. auto. Qed.

(* ================================================================= *)
(** * openNodes *)

Lemma openNodes_refines names this :
  graph_entities (openNodes names this) = openNodes_spec names this.
Proof.
  unfold openNodes. cbn [graph_entities].
  induction names as [|n rest IH]; simpl; [reflexivity|].
  destruct (Map_get n (entities this)); now rewrite IH.
Qed.

(** C10.  [openNodes names] answers with the stored entities of the
    requested names, taken in the order of [names] and passing over the names
    that are not stored: the order is that of the request (so the answer to a
    concatenated request is the concatenation of the answers) and a name
    requested twice brings its entity twice. *)
Theorem openNodes_follows_request :
  forall (this : MockMCPClient),
    (forall names : list string,
        graph_entities (openNodes names this) = openNodes_spec names this /\
        graph_relations (openNodes names this) = []) /\
    (forall names1 names2 : list string,
        graph_entities (openNodes (names1 ++ names2) this) =
        graph_entities (openNodes names1 this) ++
        graph_entities (openNodes names2 this)) /\
    (forall n : string,
        graph_entities (openNodes [n; n] this) =
        graph_entities (openNodes [n] this) ++
        graph_entities (openNodes [n] this)).
Proof.
  intros this. repeat split.
  - apply openNodes_refines.
  - intros names1 names2. unfold openNodes. cbn [graph_entities].
    now rewrite map_app, filter_defined_app.
  - intros n. unfold openNodes. cbn [graph_entities map].
    now destruct (Map_get n (entities this)).
Qed.

(* ================================================================= *)
(** * executeCode *)

Section EngineFacts.

Variable value : Type.
Variable typeOf : value -> js_type.
Variables String_ JSON_stringify : value -> string.
Variable instanceof_Error : value -> bool.
Variable Error_message : value -> string.
Variable C : Type.

Local Abbreviation line := (write_line typeOf String_ JSON_stringify).
Local Abbreviation eval I := (@evaluate value typeOf String_ JSON_stringify C I).
Local Abbreviation exec I :=
  (@executeCode value typeOf String_ JSON_stringify instanceof_Error
                Error_message C I).
Local Abbreviation state := (@run_state C).

Section OneClient.

Variable I : MCPClientInterface value C.

(** The captured output only grows, by the lines of an initial stretch of
    the script's console calls, in the order of the calls. *)
Lemma evaluate_output_prefix (timeout : N) (code : script value) :
  forall (w : option N) (s : state),
  exists issued pending,
    writes code (rs_client s) = issued ++ pending /\
    rs_output (snd (eval I timeout code w s)) =
    rs_output s ++ map line issued.
Proof.
  induction code as [| e | | ms k IH | m args k IH | c k IH | ms k IH];
    intros w s; cbn [evaluate writes].
  - exists [], []. cbn. now rewrite app_nil_r.
  - exists [], []. cbn. now rewrite app_nil_r.
  - exists [], []. destruct w; cbn; now rewrite app_nil_r.
  - destruct w as [remaining|].
    + destruct (ms <=? remaining)%N.
      * destruct (IH (Some (remaining - ms)%N)
                     {| rs_output := rs_output s;
                        rs_clock := (rs_clock s + ms)%N;
                        rs_client := rs_client s |})
          as (issued & pending & Hw & Ho).
        now exists issued, pending.
      * exists [], (writes k (rs_client s)). cbn. now rewrite app_nil_r.
    + destruct (IH None
                   {| rs_output := rs_output s;
                      rs_clock := (rs_clock s + ms)%N;
                      rs_client := rs_client s |})
        as (issued & pending & Hw & Ho).
      now exists issued, pending.
  - destruct (IH w
                 {| rs_output := sandboxConsole typeOf String_ JSON_stringify
                                   m args (rs_output s);
                    rs_clock := rs_clock s;
                    rs_client := rs_client s |})
      as (issued & pending & Hw & Ho).
    exists ((m, args) :: issued), pending. cbn [rs_client] in Hw.
    split; [now rewrite Hw|].
    rewrite Ho. cbn [rs_output map]. unfold sandboxConsole.
    now rewrite <- app_assoc.
  - destruct (callMCPTool c (rs_client s)) as [p client'].
    destruct (IH (settled p) None
                {| rs_output := rs_output s;
                   rs_clock := (rs_clock s + pending_ms p)%N;
                   rs_client := client' |})
      as (issued & pending & Hw & Ho).
    now exists issued, pending.
  - destruct (IH None
                 {| rs_output := rs_output s;
                    rs_clock := (rs_clock s + ms)%N;
                    rs_client := rs_client s |})
      as (issued & pending & Hw & Ho).
    now exists issued, pending.
Qed.

(** Once the body has suspended, nothing interrupts it: it runs to its own
    end and every console call lands in the output. *)
Lemma evaluate_resumed (timeout : N) (code : script value) :
  forall s : state,
    fst (eval I timeout code None s) = ending_of (how_ends code (rs_client s)) /\
    rs_output (snd (eval I timeout code None s)) =
    rs_output s ++ map line (writes code (rs_client s)).
Proof.
  induction code as [| e | | ms k IH | m args k IH | c k IH | ms k IH];
    intros s; cbn [evaluate writes how_ends ending_of fst snd map];
    try (now rewrite app_nil_r).
  - apply (IH {| rs_output := rs_output s;
                 rs_clock := (rs_clock s + ms)%N;
                 rs_client := rs_client s |}).
  - destruct (IH {| rs_output := sandboxConsole typeOf String_ JSON_stringify
                                   m args (rs_output s);
                    rs_clock := rs_clock s;
                    rs_client := rs_client s |}) as [He Ho].
    split; [exact He|]. rewrite Ho. cbn [rs_output rs_client map].
    unfold sandboxConsole. now rewrite <- app_assoc.
  - destruct (callMCPTool c (rs_client s)) as [p client'].
    apply (IH (settled p)
              {| rs_output := rs_output s;
                 rs_clock := (rs_clock s + pending_ms p)%N;
                 rs_client := client' |}).
  - apply (IH {| rs_output := rs_output s;
                 rs_clock := (rs_clock s + ms)%N;
                 rs_client := rs_client s |}).
Qed.

(** A body whose synchronous start fits in the timeout runs to its own end
    as well. *)
Lemma evaluate_within (timeout : N) (code : script value) :
  forall (remaining : N) (s : state),
    sync_within remaining code = true ->
    fst (eval I timeout code (Some remaining) s) =
      ending_of (how_ends code (rs_client s)) /\
    rs_output (snd (eval I timeout code (Some remaining) s)) =
    rs_output s ++ map line (writes code (rs_client s)).
Proof.
  induction code as [| e | | ms k IH | m args k IH | c k IH | ms k IH];
    intros remaining s Hin;
    cbn [evaluate writes how_ends ending_of fst snd map sync_within] in *;
    try (now rewrite app_nil_r); try discriminate.
  - apply andb_true_iff in Hin as [Hle Hin]. rewrite Hle.
    apply (IH (remaining - ms)%N
              {| rs_output := rs_output s;
                 rs_clock := (rs_clock s + ms)%N;
                 rs_client := rs_client s |} Hin).
  - destruct (IH remaining
                 {| rs_output := sandboxConsole typeOf String_ JSON_stringify
                                   m args (rs_output s);
                    rs_clock := rs_clock s;
                    rs_client := rs_client s |} Hin) as [He Ho].
    split; [exact He|]. rewrite Ho. cbn [rs_output rs_client map].
    unfold sandboxConsole. now rewrite <- app_assoc.
  - destruct (callMCPTool c (rs_client s)) as [p client'] eqn:Hcall.
    pose proof (evaluate_resumed timeout (k (settled p))
                  {| rs_output := rs_output s;
                     rs_clock := (rs_clock s + pending_ms p)%N;
                     rs_client := client' |}) as Hres.
    exact Hres.
  - apply (evaluate_resumed timeout k
             {| rs_output := rs_output s;
                rs_clock := (rs_clock s + ms)%N;
                rs_client := rs_client s |}).
Qed.

(** A body whose synchronous start does not fit is cut off by the timer of
    [runInContext] exactly when the timeout has elapsed; no tool was called
    yet, so the client is untouched. *)
Lemma evaluate_timed_out (timeout : N) (code : script value) :
  forall (remaining : N) (s : state),
    sync_within remaining code = false ->
    fst (eval I timeout code (Some remaining) s) =
      Raised (timeout_Error timeout) /\
    rs_clock (snd (eval I timeout code (Some remaining) s)) =
      (rs_clock s + remaining)%N /\
    rs_client (snd (eval I timeout code (Some remaining) s)) = rs_client s.
Proof.
  induction code as [| e | | ms k IH | m args k IH | c k IH | ms k IH];
    intros remaining s Hout;
    cbn [evaluate sync_within fst snd] in *; try discriminate.
  - auto.
  - destruct (ms <=? remaining)%N eqn:Hle; cbn [andb] in Hout.
    + destruct (IH (remaining - ms)%N
                   {| rs_output := rs_output s;
                      rs_clock := (rs_clock s + ms)%N;
                      rs_client := rs_client s |} Hout) as (He & Hc & Hcl).
      repeat split; [exact He | | exact Hcl].
      rewrite Hc. cbn [rs_clock]. apply N.leb_le in Hle. lia.
    + auto.
  - apply (IH remaining
              {| rs_output := sandboxConsole typeOf String_ JSON_stringify
                                m args (rs_output s);
                 rs_clock := rs_clock s;
                 rs_client := rs_client s |} Hout).
Qed.

(** A fulfilled run has captured every console call of the script. *)
Lemma evaluate_fulfilled_complete (timeout : N) (code : script value)
    (w : option N) (s : state) :
  fst (eval I timeout code w s) = Fulfilled ->
  rs_output (snd (eval I timeout code w s)) =
  rs_output s ++ map line (writes code (rs_client s)).
Proof.
  destruct w as [remaining|].
  - destruct (sync_within remaining code) eqn:Hin.
    + intros _. now apply evaluate_within.
    + destruct (evaluate_timed_out timeout code remaining s Hin) as [He _].
      rewrite He. discriminate.
  - intros _. apply evaluate_resumed.
Qed.

Lemma callMCPTool_slowed (extra : tool_call -> N) (c : tool_call)
    (mcpClient : option C) :
  settled (fst (callMCPTool (client_interface := slowed (client_interface := I) extra)
                            c mcpClient)) =
    settled (fst (callMCPTool (client_interface := I) c mcpClient)) /\
  snd (callMCPTool (client_interface := slowed (client_interface := I) extra) c mcpClient) =
    snd (callMCPTool (client_interface := I) c mcpClient).
Proof.
  unfold callMCPTool, getMCPClient. destruct mcpClient as [client|]; [|now split].
  cbn [callTool slowed]. now destruct (callTool client c).
Qed.

(** How long the client's promises stay pending shows in the clock only. *)
Lemma evaluate_slowed (extra : tool_call -> N) (timeout : N)
    (code : script value) :
  forall (w : option N) (s s' : state),
    rs_output s = rs_output s' ->
    rs_client s = rs_client s' ->
    fst (eval (slowed (client_interface := I) extra) timeout code w s) =
      fst (eval I timeout code w s') /\
    rs_output (snd (eval (slowed (client_interface := I) extra)
                         timeout code w s)) =
      rs_output (snd (eval I timeout code w s')) /\
    rs_client (snd (eval (slowed (client_interface := I) extra)
                         timeout code w s)) =
      rs_client (snd (eval I timeout code w s')).
Proof.
  induction code as [| e | | ms k IH | m args k IH | c k IH | ms k IH];
    intros w s s' Ho Hc; cbn [evaluate].
  - cbn. auto.
  - cbn. auto.
  - destruct w; cbn; auto.
  - destruct w as [remaining|]; [destruct (ms <=? remaining)%N|];
      try (apply IH; cbn; auto); cbn; auto.
  - apply IH; cbn; [now rewrite Ho | exact Hc].
  - rewrite Hc.
    destruct (callMCPTool_slowed extra c (rs_client s')) as [Hs Hcl].
    destruct (callMCPTool (client_interface := slowed (client_interface := I) extra)
                          c (rs_client s')) as [p1 c1].
    destruct (callMCPTool (client_interface := I) c (rs_client s')) as [p2 c2].
    cbn [fst snd] in Hs, Hcl. rewrite Hs. apply IH; cbn; auto.
  - apply IH; cbn; auto.
Qed.

Lemma run_valid (timeout : N) (code : script value) (start : state) :
  valid_timeout timeout = true ->
  run typeOf String_ JSON_stringify (client_interface := I) timeout code start =
  eval I timeout code (Some timeout) start.
Proof. unfold run. now intros ->. Qed.

Lemma run_output_prefix (timeout : N) (code : script value) (start : state) :
  exists issued pending,
    writes code (rs_client start) = issued ++ pending /\
    rs_output (snd (run typeOf String_ JSON_stringify (client_interface := I)
                        timeout code start)) =
    rs_output start ++ map line issued.
Proof.
  unfold run. destruct (valid_timeout timeout).
  - apply evaluate_output_prefix.
  - exists [], (writes code (rs_client start)). cbn. now rewrite app_nil_r.
Qed.

Lemma run_fulfilled_complete (timeout : N) (code : script value)
    (start : state) :
  fst (run typeOf String_ JSON_stringify (client_interface := I)
           timeout code start) = Fulfilled ->
  rs_output (snd (run typeOf String_ JSON_stringify (client_interface := I)
                      timeout code start)) =
  rs_output start ++ map line (writes code (rs_client start)).
Proof.
  unfold run. destruct (valid_timeout timeout).
  - apply evaluate_fulfilled_complete.
  - discriminate.
Qed.

Lemma run_slowed (extra : tool_call -> N) (timeout : N) (code : script value)
    (start : state) :
  fst (run typeOf String_ JSON_stringify
           (client_interface := slowed (client_interface := I) extra)
           timeout code start) =
    fst (run typeOf String_ JSON_stringify (client_interface := I)
             timeout code start) /\
  rs_output (snd (run typeOf String_ JSON_stringify
                      (client_interface := slowed (client_interface := I) extra)
                      timeout code start)) =
    rs_output (snd (run typeOf String_ JSON_stringify (client_interface := I)
                        timeout code start)) /\
  rs_client (snd (run typeOf String_ JSON_stringify
                      (client_interface := slowed (client_interface := I) extra)
                      timeout code start)) =
    rs_client (snd (run typeOf String_ JSON_stringify (client_interface := I)
                        timeout code start)).
Proof.
  unfold run. destruct (valid_timeout timeout).
  - now apply evaluate_slowed.
  - cbn. auto.
Qed.

Lemma executeCode_unfold (code : script value) (options : ExecutionOptions)
    (mcpClient : option C) :
  exec I code options mcpClient =
  match run typeOf String_ JSON_stringify (client_interface := I)
            (timeout_of options) code
            {| rs_output := []; rs_clock := 0%N; rs_client := mcpClient |}
  with
  | (Fulfilled, s) =>
      Some ({| success := true; output := rs_output s; error := None;
               elapsedMs := rs_clock s |}, rs_client s)
  | (Raised e, s) =>
      Some ({| success := false; output := rs_output s;
               error := Some (errorMessage String_ instanceof_Error
                                           Error_message e);
               elapsedMs := rs_clock s |}, rs_client s)
  | (Stuck, _) => None
  end.
Proof. reflexivity. Qed.

End OneClient.

Section Outcomes.

Variable I : MCPClientInterface value C.

Local Abbreviation run_ J :=
  (run typeOf String_ JSON_stringify (client_interface := J)).

(** A timeout that [runInContext] refuses is reported as a failure before
    the script has done anything. *)
Lemma executeCode_invalid_timeout (code : script value)
    (options : ExecutionOptions) (mcpClient : option C) :
  valid_timeout (timeout_of options) = false ->
  exists message : string,
    exec I code options mcpClient =
    Some ({| success := false; output := []; error := Some message;
             elapsedMs := 0%N |}, mcpClient).
Proof.
  intros Hbad. rewrite executeCode_unfold. unfold run. rewrite Hbad.
  eexists. reflexivity.
Qed.



(** C1.  The timeout of [runInContext] guards the body up to its first
    [await] only.  Under any timeout the engine accepts, a body that suspends
    for [ms] milliseconds and then ends is reported as a success after [ms],
    however far [ms] exceeds the timeout; a body that awaits a tool call and
    then loops forever is never reported at all. *)
Theorem executeCode_timeout_not_enforced_after_await :
  forall (t ms : N) (c : tool_call) (mcpClient : option C),
    valid_timeout t = true ->
    exec I (AwaitTimer ms Return) {| timeoutMs := Some t |} mcpClient =
      Some ({| success := true; output := []; error := None;
               elapsedMs := ms |}, mcpClient) /\
    exec I (AwaitTool c (fun _ => Loop)) {| timeoutMs := Some t |} mcpClient =
      None.
Proof.
  intros t ms c mcpClient Hvalid. split.
  - rewrite executeCode_unfold. cbn [timeout_of timeoutMs].
    now rewrite run_valid by assumption.
  - rewrite executeCode_unfold. cbn [timeout_of timeoutMs].
    rewrite run_valid by assumption. cbn [evaluate rs_client].
    now destruct (callMCPTool c mcpClient).
Qed.



End Outcomes.

End EngineFacts.

(* ================================================================= *)
(** * Worked examples *)

Lemma sample_store_wf : Map_wf sample_store.
Proof.
  split; cbn.
  - apply NoDup_cons; [cbn; intros [H|[]]; discriminate|].
    apply NoDup_cons; [intros []|apply NoDup_nil].
  - repeat constructor.
Defined.

(** Re-creating [Server_001] on the sample store replaces its type and its
    two observations by the new ones. *)
Lemma createEntities_overwrites_existing_witness :
  Map_get "Server_001"
          (entities (snd (createEntities [Server_001_again] sample_store))) =
    Some {| ewt_type := entity_lit; ewt_entity := Server_001_again |} /\
  entities_named "Server_001"
    (readGraph (snd (createEntities [Server_001_again] sample_store))) =
    [{| ewt_type := entity_lit; ewt_entity := Server_001_again |}].
Proof.
  pose proof (@createEntities_overwrites_existing
                sample_store [] [] Server_001_again
                {| ewt_type := entity_lit; ewt_entity := Server_001 |}
                sample_store_wf eq_refl
                (fun e' (H : In e' []) => match H with end)) as W.
  cbn zeta in W. destruct W as (_ & Hget & Hnamed & _).
  split; [exact Hget | exact Hnamed].
Defined.

(** The infinite loop of the specification's scenario: cut off after the
    50 ms of the timeout. *)
Lemma executeCode_infinite_loop_50ms :
  sample_executeCode sample_interface Loop {| timeoutMs := Some 50%N |}
                     (Some sample_store) =
  Some ({| success := false; output := [];
           error := Some "Script execution timed out after 50ms";
           elapsedMs := 50%N |}, Some sample_store).
Proof. reflexivity. Qed.

(** With a timeout of 50 ms: a 200 ms wait is reported as a success after
    200 ms, and the same loop placed after one tool call is never reported. *)
Lemma executeCode_timeout_not_enforced_after_await_witness :
  sample_executeCode sample_interface (AwaitTimer 200%N Return)
                     {| timeoutMs := Some 50%N |} (Some sample_store) =
    Some ({| success := true; output := []; error := None;
             elapsedMs := 200%N |}, Some sample_store) /\
  sample_executeCode sample_interface await_then_spin
                     {| timeoutMs := Some 50%N |} (Some sample_store) = None.
Proof.
  exact (@executeCode_timeout_not_enforced_after_await
           sample_value sample_typeOf sample_String sample_JSON_stringify
           sample_instanceof_Error sample_Error_message MockMCPClient
           sample_interface 50%N 200%N call_readGraph (Some sample_store)
           eq_refl).
Defined.



(** The request order, not the store order, decides the answer of
    [openNodes]; a name that is not stored is passed over. *)
Lemma openNodes_request_order_example :
  map (fun e : EntityWithType => name e)
      (graph_entities
         (openNodes ["Database_001"; "Nobody"; "Server_001"; "Database_001"]
                    sample_store)) =
  ["Database_001"; "Server_001"; "Database_001"].
Proof. reflexivity. Qed.

(** Deleting [Server_001] takes its relation along. *)
Lemma deleteEntities_example :
  readGraph (snd (deleteEntities ["Server_001"; "Nobody"] sample_store)) =
  {| graph_entities :=
       [{| ewt_type := entity_lit; ewt_entity := Database_001 |}];
     graph_relations := [] |}.
Proof. reflexivity. Qed.

(** Searching is blind to letter case and looks into observations. *)
Lemma searchNodes_example :
  map (fun e : EntityWithType => name e)
      (graph_entities (searchNodes toLowerCase_ascii "POSTGRES" sample_store))
  = ["Database_001"].
Proof. reflexivity. Qed.

(** An entry for an unknown entity is passed over without a trace. *)
Lemma addObservations_example :
  fst (addObservations
         [{| entityName := "Nobody"; contents := ["x"] |};
          {| entityName := "Database_001"; contents := ["checked: yes"] |}]
         sample_store) =
  [{| res_entityName := "Database_001";
      addedObservations := ["checked: yes"] |}].
Proof. reflexivity. Qed.

(* ================================================================= *)
(** * Further properties of the store *)

(** ** createRelations and deleteRelations *)

Lemma createRelations_fold inputs this :
  fold_left
    (fun this relation =>
       {| entities := entities this;
          relations := relations this ++ [relation] |})
    inputs this =
  {| entities := entities this; relations := relations this ++ inputs |}.
Proof.
  revert this; induction inputs as [|r l IH]; intros this; cbn [fold_left].
  - rewrite app_nil_r. now destruct this.
  - rewrite IH. cbn [entities relations]. now rewrite <- app_assoc.
Qed.

Lemma deleteRelations_fold rels this :
  fold_left deleteRelations_step rels this =
  {| entities := entities this;
     relations :=
       filter (fun r => negb (existsb (fun rel => same_triple rel r) rels))
              (relations this) |}.
Proof.
  revert this; induction rels as [|rel l IH]; intros this; cbn [fold_left].
  - cbn [existsb negb]. destruct this as [es rs]. cbn [entities relations].
    f_equal. induction rs as [|r rs IHr]; cbn; congruence.
  - rewrite IH. unfold deleteRelations_step. cbn [entities relations].
    rewrite filter_filter. f_equal. apply filter_ext. intros r.
    cbn [existsb]. unfold same_triple. now rewrite negb_orb.
Qed.

(** X1.  [createRelations] puts its inputs, in their order, after the
    relations already stored, whether or not an equal relation is stored
    and whether or not the end points are stored entities; it touches no
    entity and answers with its inputs. *)
Theorem createRelations_appends :
  forall (inputs : list CreateRelationInput) (this : MockMCPClient),
    fst (createRelations inputs this) = inputs /\
    relations (snd (createRelations inputs this)) = relations this ++ inputs /\
    entities (snd (createRelations inputs this)) = entities this /\
    graph_relations (readGraph (snd (createRelations inputs this))) =
      graph_relations (readGraph this) ++
      map (fun r => {| rwt_type := relation_lit; rwt_relation := r |}) inputs.
Proof.
  intros inputs this. unfold createRelations. cbn [fst snd].
  rewrite createRelations_fold. cbn [entities relations readGraph graph_relations].
  repeat split. now rewrite map_app.
Qed.

(** X2.  [deleteRelations] removes every stored relation that agrees with
    one of the listed triples in all three fields, every copy of it, and
    nothing else: the other relations stay, in their order, and so do the
    entities.  A triple that matches nothing is no error. *)
Theorem deleteRelations_exact :
  forall (rels : list CreateRelationInput) (this : MockMCPClient),
    fst (deleteRelations rels this) = true /\
    relations (snd (deleteRelations rels this)) =
      filter (fun r => negb (existsb (fun rel => same_triple rel r) rels))
             (relations this) /\
    entities (snd (deleteRelations rels this)) = entities this.
Proof.
  intros rels this. unfold deleteRelations. cbn [fst snd].
  rewrite deleteRelations_fold. now cbn.
Qed.

Lemma same_triple_refl (r : Relation) : same_triple r r = true.
Proof. unfold same_triple. now rewrite !String.eqb_refl. Qed.

(** X3.  Deleting the relations just created removes all of them, and with
    them the older relations equal to one of them: what is left is the old
    list without the relations matching an input. *)
Theorem createRelations_then_deleteRelations :
  forall (inputs : list CreateRelationInput) (this : MockMCPClient),
    relations (snd (deleteRelations inputs
                      (snd (createRelations inputs this)))) =
    filter (fun r => negb (existsb (fun rel => same_triple rel r) inputs))
           (relations this).
Proof.
  intros inputs this. unfold deleteRelations, createRelations. cbn [snd].
  rewrite deleteRelations_fold, createRelations_fold. cbn [relations].
  rewrite filter_app.
  replace (filter (fun r => negb (existsb (fun rel => same_triple rel r) inputs))
                  inputs) with (@nil Relation); [now rewrite app_nil_r|].
  symmetry.
  assert (H : forall l, (forall r, In r l -> In r inputs) ->
            filter (fun r => negb (existsb (fun rel => same_triple rel r)
                                           inputs)) l = []).
  { induction l as [|r l IHl]; intros Hsub; cbn [filter]; [reflexivity|].
    replace (existsb (fun rel => same_triple rel r) inputs) with true.
    - cbn. apply IHl. intros r' Hr'. apply Hsub. now right.
    - symmetry. apply existsb_exists. exists r. split.
      + apply Hsub. now left.
      + apply same_triple_refl. }
  apply H. auto.
Qed.

(** ** deleteObservations *)

Lemma without_observations_nil (e : EntityWithType) :
  without_observations [] e = e.
Proof.
  destruct e as [t [n ty obs]]. unfold without_observations; cbn.
  do 2 f_equal. induction obs as [|o obs IH]; cbn; congruence.
Qed.

Lemma Array_includes_app (xs ys : list string) (x : string) :
  Array_includes (xs ++ ys) x = Array_includes xs x || Array_includes ys x.
Proof. unfold Array_includes. apply existsb_app. Qed.

Lemma without_observations_app (xs ys : list string) (e : EntityWithType) :
  without_observations ys (without_observations xs e) =
  without_observations (xs ++ ys) e.
Proof.
  unfold without_observations; cbn. rewrite filter_filter.
  do 2 f_equal. apply filter_ext. intros o.
  now rewrite Array_includes_app, negb_orb.
Qed.

Lemma deleteObservations_step_stored this d entity :
  Map_get (del_entityName d) (entities this) = Some entity ->
  deleteObservations_step this d =
  {| entities := Map_set (del_entityName d)
                         (without_observations (del_observations d) entity)
                         (entities this);
     relations := relations this |}.
Proof. intros H. unfold deleteObservations_step. now rewrite H. Qed.

Lemma deleteObservations_step_missing this d :
  Map_get (del_entityName d) (entities this) = None ->
  deleteObservations_step this d = this.
Proof. intros H. unfold deleteObservations_step. now rewrite H. Qed.

Lemma deleteObservations_fold_get deletions this k :
  Map_get k (entities (fold_left deleteObservations_step deletions this)) =
  option_map (without_observations (deletions_for k deletions))
             (Map_get k (entities this)).
Proof.
  revert this; induction deletions as [|d l IH]; intros this.
  - cbn. destruct (Map_get k (entities this)); cbn; [|reflexivity].
    now rewrite without_observations_nil.
  - cbn [fold_left]. unfold deletions_for. cbn [filter].
    destruct (Map_get (del_entityName d) (entities this)) as [ent|] eqn:G.
    + rewrite (deleteObservations_step_stored _ _ G), IH. cbn [entities].
      destruct (String.eqb (del_entityName d) k) eqn:E.
      * apply String.eqb_eq in E; subst k.
        rewrite Map_get_set_same, G. cbn [option_map map List.concat].
        now rewrite without_observations_app.
      * apply String.eqb_neq in E.
        rewrite Map_get_set_other by congruence. reflexivity.
    + rewrite (deleteObservations_step_missing _ _ G), IH.
      destruct (String.eqb (del_entityName d) k) eqn:E; [|reflexivity].
      apply String.eqb_eq in E; subst k. now rewrite G.
Qed.

Lemma deleteObservations_fold_shape deletions this :
  Map_keys (entities (fold_left deleteObservations_step deletions this)) =
  Map_keys (entities this) /\
  relations (fold_left deleteObservations_step deletions this) =
  relations this.
Proof.
  revert this; induction deletions as [|d l IH]; intros this.
  - now split.
  - cbn [fold_left].
    destruct (Map_get (del_entityName d) (entities this)) as [ent|] eqn:G.
    + rewrite (deleteObservations_step_stored _ _ G).
      destruct (IH {| entities :=
                        Map_set (del_entityName d)
                          (without_observations (del_observations d) ent)
                          (entities this);
                      relations := relations this |}) as [Hk Hr].
      rewrite Hk, Hr. cbn [entities relations]. split; [|reflexivity].
      now rewrite Map_keys_set, Map_has_get, G.
    + rewrite (deleteObservations_step_missing _ _ G). apply IH.
Qed.

(** X4.  [deleteObservations] takes from every stored entity all copies of
    the strings that the entries addressed to it list, keeps its other
    observations in their order, and keeps its name and type; an entry for a
    name that is not stored, or a string the entity does not have, changes
    nothing.  No entity appears or disappears and no relation changes. *)
Theorem deleteObservations_exact :
  forall (deletions : list DeleteObservationInput) (this : MockMCPClient),
    fst (deleteObservations deletions this) = true /\
    (forall k : string,
        Map_get k (entities (snd (deleteObservations deletions this))) =
        option_map (without_observations (deletions_for k deletions))
                   (Map_get k (entities this))) /\
    Map_keys (entities (snd (deleteObservations deletions this))) =
      Map_keys (entities this) /\
    relations (snd (deleteObservations deletions this)) = relations this.
Proof.
  intros deletions this. unfold deleteObservations. cbn [fst snd].
  repeat split.
  - intros k. apply deleteObservations_fold_get.
  - apply deleteObservations_fold_shape.
  - apply deleteObservations_fold_shape.
Qed.

Lemma deletions_for_undo k inputs :
  deletions_for k (undo_additions inputs) = contents_for k inputs.
Proof.
  unfold deletions_for, contents_for, undo_additions.
  induction inputs as [|o l IH]; cbn; [reflexivity|].
  destruct (String.eqb (entityName o) k); cbn; now rewrite IH.
Qed.

Lemma without_appended (xs : list string) (e : EntityWithType) :
  without_observations xs (with_appended xs e) = without_observations xs e.
Proof.
  unfold without_observations, with_appended; cbn. do 2 f_equal.
  rewrite filter_app.
  replace (filter (fun o => negb (Array_includes xs o)) xs) with (@nil string);
    [apply app_nil_r|].
  symmetry.
  assert (H : forall l, (forall o, In o l -> In o xs) ->
            filter (fun o => negb (Array_includes xs o)) l = []).
  { induction l as [|o l IHl]; intros Hsub; cbn [filter]; [reflexivity|].
    replace (Array_includes xs o) with true.
    - cbn. apply IHl. intros o' Ho'. apply Hsub. now right.
    - symmetry. apply existsb_exists. exists o. split.
      + apply Hsub. now left.
      + apply String.eqb_refl. }
  apply H. auto.
Qed.


(** ** deleteEntities, again *)

Lemma deleteEntities_state names this :
  fold_left deleteEntities_step names this =
  {| entities :=
       filter (fun kv => negb (Array_includes names (fst kv))) (entities this);
     relations :=
       filter (fun r => negb (Array_includes names (from r))
                        && negb (Array_includes names (to r)))
              (relations this) |}.
Proof.
  revert this; induction names as [|n ns IH]; intros this.
  - destruct this as [es rs]. cbn. f_equal.
    + induction es as [|kv m IHm]; cbn; congruence.
    + induction rs as [|r m IHm]; cbn; congruence.
  - cbn [fold_left]. rewrite IH. unfold deleteEntities_step.
    cbn [entities relations]. unfold Map_delete. rewrite !filter_filter.
    f_equal; apply filter_ext; intros x; unfold Array_includes;
      cbn [existsb].
    + now rewrite negb_orb.
    + destruct (String.eqb (from x) n), (String.eqb (to x) n),
        (existsb (String.eqb (from x)) ns), (existsb (String.eqb (to x)) ns);
        reflexivity.
Qed.

(** X6.  What [deleteEntities] leaves depends on which names are listed,
    not on their order or on how the list is cut into calls: two batches in
    either order end in the same store as one call with both, and repeating
    a batch changes nothing more. *)
Theorem deleteEntities_batches_commute :
  forall (names1 names2 : list string) (this : MockMCPClient),
    snd (deleteEntities names2 (snd (deleteEntities names1 this))) =
      snd (deleteEntities (names1 ++ names2) this) /\
    snd (deleteEntities names1 (snd (deleteEntities names2 this))) =
      snd (deleteEntities (names1 ++ names2) this) /\
    snd (deleteEntities names1 (snd (deleteEntities names1 this))) =
      snd (deleteEntities names1 this).
Proof.
  intros names1 names2 this. unfold deleteEntities. cbn [snd].
  rewrite !deleteEntities_state. cbn [entities relations].
  rewrite !filter_filter.
  repeat split; f_equal; apply filter_ext; intros x;
    rewrite ?Array_includes_app;
    repeat match goal with
           | |- context [Array_includes ?l ?y] =>
               destruct (Array_includes l y)
           end; reflexivity.
Qed.

Lemma Map_get_filter_keys (V : Type) (p : string -> bool) (m : Map V) k :
  Map_get k (filter (fun kv => p (fst kv)) m) =
  if p k then Map_get k m else None.
Proof.
  induction m as [|[k0 v0] m IH]; cbn.
  - now destruct (p k).
  - destruct (p k0) eqn:P0; cbn.
    + destruct (String.eqb k0 k) eqn:E.
      * apply String.eqb_eq in E; subst k0. now rewrite P0.
      * exact IH.
    + rewrite IH. destruct (String.eqb k0 k) eqn:E; [|reflexivity].
      apply String.eqb_eq in E; subst k0. now rewrite P0.
Qed.

(** X7.  After [deleteEntities names], [openNodes] finds none of the
    deleted names and finds every other name as before: its answer to any
    request is the old answer to the request without the deleted names. *)
Theorem openNodes_after_deleteEntities :
  forall (names request : list string) (this : MockMCPClient),
    openNodes request (snd (deleteEntities names this)) =
      openNodes (filter (fun n => negb (Array_includes names n)) request) this /\
    graph_entities (openNodes names (snd (deleteEntities names this))) = [].
Proof.
  intros names request this.
  assert (H : forall req,
             openNodes req (snd (deleteEntities names this)) =
             openNodes (filter (fun n => negb (Array_includes names n)) req)
                       this).
  { intros req. unfold openNodes, deleteEntities. cbn [snd].
    rewrite deleteEntities_state. cbn [entities]. f_equal.
    induction req as [|n req IH]; cbn [map filter filter_defined];
      [reflexivity|].
    rewrite (Map_get_filter_keys (fun k => negb (Array_includes names k))).
    destruct (Array_includes names n); cbn [negb map filter_defined].
    - exact IH.
    - destruct (Map_get n (entities this)); now rewrite IH. }
  split; [apply H|].
  rewrite H.
  replace (filter (fun n => negb (Array_includes names n)) names)
    with (@nil string); [reflexivity|].
  symmetry.
  assert (Hall : forall l, (forall n, In n l -> In n names) ->
            filter (fun n => negb (Array_includes names n)) l = []).
  { induction l as [|n l IHl]; intros Hsub; cbn [filter]; [reflexivity|].
    replace (Array_includes names n) with true.
    - cbn. apply IHl. intros n' Hn'. apply Hsub. now right.
    - symmetry. apply existsb_exists. exists n. split.
      + apply Hsub. now left.
      + apply String.eqb_refl. }
  apply Hall. auto.
Qed.

(** ** createEntities, again *)

Lemma Map_set_fresh (V : Type) (m : Map V) k (v : V) :
  Map_get k m = None -> Map_set k v m = m ++ [(k, v)].
Proof.
  induction m as [|[k0 v0] m IH]; cbn; [reflexivity|].
  destruct (String.eqb k0 k); [discriminate|].
  intros H. now rewrite IH.
Qed.

Lemma Map_get_app (V : Type) (m m' : Map V) k :
  Map_get k (m ++ m') =
  match Map_get k m with
  | Some v => Some v
  | None => Map_get k m'
  end.
Proof.
  induction m as [|[k0 v0] m IH]; cbn; [reflexivity|].
  now destruct (String.eqb k0 k).
Qed.

Lemma stored_entity_eta (e : CreateEntityInput) :
  {| ewt_type := entity_lit;
     ewt_entity := {| name := name e;
                      entityType := entityType e;
                      observations := observations e |} |} = stored_entity e.
Proof. now destruct e. Qed.

Lemma createEntities_fold_fresh inputs this created :
  NoDup (map name inputs) ->
  (forall e : CreateEntityInput,
      In e inputs -> Map_get (name e) (entities this) = None) ->
  entities (fst (fold_left createEntities_step inputs (this, created))) =
  entities this ++ map (fun e => (name e, stored_entity e)) inputs.
Proof.
  revert this created; induction inputs as [|e l IH];
    intros this created Hnd Hfresh; cbn [fold_left map].
  - now rewrite app_nil_r.
  - inversion Hnd as [|? ? Hnotin Hnd']; subst.
    cbn [createEntities_step]. rewrite stored_entity_eta.
    rewrite Map_set_fresh by (apply Hfresh; now left).
    rewrite IH; cbn [entities]; [now rewrite <- app_assoc | assumption |].
    intros e' He'. rewrite Map_get_app, Hfresh by now right.
    cbn. destruct (String.eqb (name e) (name e')) eqn:E; [|reflexivity].
    apply String.eqb_eq in E. exfalso. apply Hnotin. rewrite E.
    now apply in_map.
Qed.

Lemma createEntities_fold_get_last earlier later (e : CreateEntityInput) acc :
  (forall e' : CreateEntityInput, In e' later -> name e' <> name e) ->
  Map_get (name e)
    (entities (fst (fold_left createEntities_step (earlier ++ e :: later) acc)))
  = Some (stored_entity e).
Proof.
  intros Hlast. rewrite fold_left_app. cbn [fold_left].
  rewrite createEntities_fold_get_other by assumption.
  destruct (fold_left createEntities_step earlier acc) as [t c].
  cbn. rewrite Map_get_set_same. now destruct e.
Qed.

(** X8.  [createEntities] with names that differ from one another and from
    every stored name adds the inputs after the stored entities, in input
    order, each with its own type and observations; [readGraph] lists the
    old entities first, then the new ones, and the relations are as
    before. *)
Theorem createEntities_fresh_appends :
  forall (inputs : list CreateEntityInput) (this : MockMCPClient),
    NoDup (map name inputs) ->
    (forall e : CreateEntityInput,
        In e inputs -> Map_get (name e) (entities this) = None) ->
    graph_entities (readGraph (snd (createEntities inputs this))) =
      graph_entities (readGraph this) ++ map stored_entity inputs /\
    graph_relations (readGraph (snd (createEntities inputs this))) =
      graph_relations (readGraph this).
Proof.
  intros inputs this Hnd Hfresh. rewrite createEntities_result. cbn [snd].
  unfold readGraph. cbn [graph_entities graph_relations].
  rewrite createEntities_fold_relations. cbn [fst]. split; [|reflexivity].
  rewrite createEntities_fold_fresh by assumption.
  unfold Map_values. now rewrite map_app, map_map.
Qed.

(** X9.  After [createEntities] with names that differ from one another,
    [openNodes] on those names gives back the inputs, in order, each with
    its own type and observations, whatever was stored under the names
    before. *)
Theorem openNodes_after_createEntities :
  forall (inputs : list CreateEntityInput) (this : MockMCPClient),
    NoDup (map name inputs) ->
    graph_entities (openNodes (map name inputs)
                              (snd (createEntities inputs this))) =
    map stored_entity inputs.
Proof.
  intros inputs this Hnd. rewrite createEntities_result. cbn [snd].
  unfold openNodes. cbn [graph_entities]. rewrite map_map.
  assert (Hget : forall e : CreateEntityInput, In e inputs ->
            Map_get (name e)
              (entities (fst (fold_left createEntities_step inputs (this, []))))
            = Some (stored_entity e)).
  { intros e Hin. apply in_split in Hin as (l1 & l2 & ->).
    apply createEntities_fold_get_last.
    intros e' He' Heq. rewrite map_app in Hnd. cbn [map] in Hnd.
    apply NoDup_remove_2 in Hnd. apply Hnd. apply in_or_app. right.
    rewrite <- Heq. now apply in_map. }
  revert Hget.
  generalize (entities (fst (fold_left createEntities_step inputs (this, [])))).
  intros m Hget. clear Hnd.
  induction inputs as [|e l IH]; cbn [map filter_defined]; [reflexivity|].
  rewrite Hget by now left. cbn [filter_defined].
  rewrite IH; [reflexivity|]. intros e' He'. apply Hget. now right.
Qed.

(** ** loadData *)

Lemma loadData_entities_fold (vs : list EntityWithType) (t : MockMCPClient) :
  NoDup (map (fun v : EntityWithType => name v) vs) ->
  (forall v : EntityWithType, In v vs -> Map_get (name v) (entities t) = None) ->
  fold_left
    (fun this (entity : EntityWithType) =>
       {| entities := Map_set (name entity) entity (entities this);
          relations := relations this |})
    vs t =
  {| entities := entities t ++ map (fun v : EntityWithType => (name v, v)) vs;
     relations := relations t |}.
Proof.
  revert t; induction vs as [|v l IH]; intros t Hnd Hfresh; cbn [fold_left map].
  - rewrite app_nil_r. now destruct t.
  - inversion Hnd as [|? ? Hnotin Hnd']; subst.
    rewrite IH; cbn [entities relations]; [|assumption|].
    + rewrite Map_set_fresh by (apply Hfresh; now left).
      now rewrite <- app_assoc.
    + intros v' Hv'. rewrite Map_set_fresh by (apply Hfresh; now left).
      rewrite Map_get_app, Hfresh by now right.
      cbn. destruct (String.eqb (name v) (name v')) eqn:E; [|reflexivity].
      apply String.eqb_eq in E. exfalso. apply Hnotin. rewrite E.
      now apply (in_map (fun x : EntityWithType => name x)).
Qed.

Lemma loadData_relations_fold (rs : list RelationWithType) (t : MockMCPClient) :
  fold_left
    (fun this (relation : RelationWithType) =>
       {| entities := entities this;
          relations :=
            relations this ++ [{| from := from relation;
                                  to := to relation;
                                  relationType := relationType relation |}] |})
    rs t =
  {| entities := entities t;
     relations := relations t ++ map rwt_relation rs |}.
Proof.
  revert t; induction rs as [|r l IH]; intros t; cbn [fold_left map].
  - rewrite app_nil_r. now destruct t.
  - rewrite IH. cbn [entities relations]. rewrite <- app_assoc.
    destruct r as [tag [f t0 ty]]. reflexivity.
Qed.

(** X10.  [loadData] of a graph whose entities have names that differ from
    one another replaces whatever the client held: [readGraph] then returns
    that graph, entities and relations in the order given. *)
Theorem loadData_then_readGraph :
  forall (graph : Graph) (this : MockMCPClient),
    NoDup (map (fun e : EntityWithType => name e) (graph_entities graph)) ->
    readGraph (loadData graph this) = graph.
Proof.
  intros graph this Hnd. unfold loadData.
  rewrite loadData_entities_fold; [|assumption|reflexivity].
  rewrite loadData_relations_fold. unfold readGraph.
  cbn [entities relations app]. destruct graph as [es rs].
  cbn [graph_entities graph_relations]. f_equal.
  - unfold Map_values. rewrite map_map. cbn. apply map_id.
  - rewrite map_map. rewrite <- (map_id rs) at 2. apply map_ext.
    intros [[] r]. reflexivity.
Qed.

Lemma Map_wf_values_names (this : MockMCPClient) :
  Map_wf this ->
  NoDup (map (fun e : EntityWithType => name e) (Map_values (entities this))) /\
  map (fun v : EntityWithType => (name v, v)) (Map_values (entities this)) =
  entities this.
Proof.
  intros [Hnd Hall]. unfold Map_values, Map_keys in *.
  rewrite !map_map.
  assert (Hfst : map (fun kv : string * EntityWithType => name (snd kv))
                     (entities this) = map fst (entities this)).
  { apply map_ext_in. intros kv Hin. rewrite Forall_forall in Hall.
    symmetry. now apply Hall. }
  split; [now rewrite Hfst|].
  rewrite <- (map_id (entities this)) at 2. apply map_ext_in.
  intros [k v] Hin. rewrite Forall_forall in Hall.
  specialize (Hall _ Hin). cbn in *. now subst.
Qed.

(** X11.  A snapshot taken with [readGraph] and put back with [loadData]
    restores the client it was taken from, entry for entry, whatever the
    client it is loaded into held. *)
Theorem loadData_restores_snapshot :
  forall (this other : MockMCPClient),
    Map_wf this ->
    loadData (readGraph this) other = this.
Proof.
  intros this other Hwf.
  destruct (Map_wf_values_names Hwf) as [Hnd Hes].
  unfold loadData, readGraph. cbn [graph_entities graph_relations].
  rewrite loadData_entities_fold; [|assumption|reflexivity].
  rewrite loadData_relations_fold. cbn [entities relations app].
  rewrite Hes, map_map. cbn. rewrite map_id. now destruct this.
Qed.

(** ** The dispatch of callTool *)

(** X12.  Of the nine tool calls of the mock client, the three queries
    leave the client as it is; only [create_entities] and [delete_entities]
    change which names are stored; only [create_relations],
    [delete_relations] and [delete_entities] change the relations.  Every
    call is answered at once and none is rejected. *)
Theorem Mock_callTool_frame :
  forall (value : Type) (toLowerCase : string -> string)
         (this : MockMCPClient) (c : tool_call),
    (exists r : response,
        fst (Mock_callTool value toLowerCase this c) = resolved r) /\
    (is_query c = true ->
     snd (Mock_callTool value toLowerCase this c) = this) /\
    (changes_entity_set c = false ->
     Map_keys (entities (snd (Mock_callTool value toLowerCase this c))) =
     Map_keys (entities this)) /\
    (changes_relations c = false ->
     relations (snd (Mock_callTool value toLowerCase this c)) =
     relations this).
Proof.
  intros value toLowerCase this c.
  destruct c; cbn [Mock_callTool is_query changes_entity_set changes_relations];
    repeat match goal with
           | |- context [createEntities ?l ?t] =>
               rewrite (createEntities_result l t)
           | |- context [addObservations ?l ?t] =>
               rewrite (addObservations_result l t)
           end;
    unfold createRelations, deleteEntities, deleteObservations, deleteRelations;
    cbn [fst snd];
    (split; [eexists; reflexivity|]);
    repeat split; try discriminate; try reflexivity; intros _.
  - apply createEntities_fold_relations.
  - now rewrite createRelations_fold.
  - apply addObservations_fold_shape.
  - apply addObservations_fold_shape.
  - apply deleteObservations_fold_shape.
  - apply deleteObservations_fold_shape.
  - now rewrite deleteRelations_fold.
Qed.

(** ** Batches cut in two *)

Lemma addObservations_fold_acc inputs this results :
  fold_left addObservations_step inputs (this, results) =
  (fst (fold_left addObservations_step inputs (this, [])),
   results ++ snd (fold_left addObservations_step inputs (this, []))).
Proof.
  revert this results; induction inputs as [|o l IH]; intros this results.
  - cbn. now rewrite app_nil_r.
  - cbn [fold_left].
    destruct (Map_get (entityName o) (entities this)) as [ent|] eqn:G.
    + rewrite (addObservations_step_stored this results o G),
        (addObservations_step_stored this [] o G).
      set (t1 := {| entities := Map_set (entityName o)
                                  (with_appended (contents o) ent)
                                  (entities this);
                    relations := relations this |}).
      set (x := {| res_entityName := entityName o;
                   addedObservations := contents o |}).
      rewrite (IH t1 (results ++ [x])), (IH t1 ([] ++ [x])).
      cbn [fst snd app]. now rewrite <- app_assoc.
    + rewrite (addObservations_step_missing this results o G),
        (addObservations_step_missing this [] o G).
      apply IH.
Qed.

Lemma createEntities_fold_acc inputs this created :
  fold_left createEntities_step inputs (this, created) =
  (fst (fold_left createEntities_step inputs (this, [])),
   created ++ snd (fold_left createEntities_step inputs (this, []))).
Proof.
  revert this created; induction inputs as [|e l IH]; intros this created.
  - cbn. now rewrite app_nil_r.
  - cbn [fold_left createEntities_step].
    set (t1 := {| entities := _; relations := _ |}).
    rewrite (IH t1 (created ++ [e])).
    match goal with
    | |- _ = (fst (fold_left _ _ (_, ?a)), _) => rewrite (IH t1 a)
    end.
    cbn [fst snd app]. now rewrite <- app_assoc.
Qed.


(** ** searchNodes, again *)

Lemma includes_empty (s : string) : includes s "" = true.
Proof. destruct s; reflexivity. Qed.

Section SearchMore.

Variable toLowerCase : string -> string.

(** X14.  When lower-casing leaves the empty string empty, [searchNodes]
    with the empty query answers with every stored entity, in store
    order. *)
Theorem searchNodes_empty_query :
  forall this : MockMCPClient,
    toLowerCase "" = "" ->
    graph_entities (searchNodes toLowerCase "" this) =
    graph_entities (readGraph this).
Proof.
  intros this Hlow. unfold searchNodes, readGraph. cbn [graph_entities].
  induction (Map_values (entities this)) as [|e l IH]; cbn [filter];
    [reflexivity|].
  unfold searchNodes_match at 1. rewrite Hlow, includes_empty. cbn [orb].
  now rewrite IH.
Qed.

(** X15.  An observation added to a stored entity is found by
    [searchNodes]: after [addObservations] of one entry for a stored name,
    a query that occurs, letter case aside, in one of the added strings is
    answered with that entity, carrying the added strings. *)
Theorem searchNodes_finds_added_observation :
  forall (q : string) (o : AddObservationInput) (e : EntityWithType)
         (added : string) (this : MockMCPClient),
    Map_get (entityName o) (entities this) = Some e ->
    In added (contents o) ->
    occurs_ci toLowerCase q added ->
    In (with_appended (contents o) e)
       (graph_entities
          (searchNodes toLowerCase q (snd (addObservations [o] this)))).
Proof.
  intros q o e added this Hget Hin Hocc.
  unfold searchNodes. cbn [graph_entities]. apply filter_In. split.
  - rewrite addObservations_result. cbn [snd fold_left].
    rewrite (addObservations_step_stored _ _ _ Hget). cbn [fst entities].
    unfold Map_values. apply in_map_iff.
    exists (entityName o, with_appended (contents o) e). split; [reflexivity|].
    apply Map_get_In. apply Map_get_set_same.
  - apply searchNodes_match_spec. right; right.
    exists added. split; [|exact Hocc].
    cbn. apply in_or_app. now right.
Qed.

End SearchMore.

(** ** Repeating createEntities *)

Section MapSetAlgebra.

Variable V : Type.
Implicit Types (m : Map V) (k : string) (v : V).

Lemma Map_has_set m k k' v :
  Map_has k (Map_set k' v m) = String.eqb k' k || Map_has k m.
Proof.
  unfold Map_has. destruct (String.eqb k' k) eqn:E.
  - apply String.eqb_eq in E; subst. now rewrite Map_get_set_same.
  - apply String.eqb_neq in E. rewrite Map_get_set_other by congruence.
    reflexivity.
Qed.

Lemma Map_set_set_same m k v v' :
  Map_set k v (Map_set k v' m) = Map_set k v m.
Proof.
  induction m as [|[k0 v0] m IH]; cbn.
  - now rewrite String.eqb_refl.
  - destruct (String.eqb k0 k) eqn:E; cbn.
    + now rewrite String.eqb_refl.
    + now rewrite E, IH.
Qed.

(** Two writes under different keys commute when one of the keys is
    stored: a write under a stored key changes no position. *)
Lemma Map_set_comm m k k' v v' :
  k <> k' -> Map_has k m = true ->
  Map_set k v (Map_set k' v' m) = Map_set k' v' (Map_set k v m).
Proof.
  intros Hne. unfold Map_has.
  induction m as [|[k0 v0] m IH]; cbn; [discriminate|].
  destruct (String.eqb k0 k) eqn:E.
  - apply String.eqb_eq in E; subst k0. intros _.
    assert (E' : String.eqb k k' = false) by now apply String.eqb_neq.
    rewrite E'. cbn. now rewrite String.eqb_refl, E'.
  - intros Hhas. destruct (String.eqb k0 k') eqn:E'; cbn.
    + apply String.eqb_eq in E'; subst k0.
      rewrite E. now rewrite String.eqb_refl.
    + now rewrite E, E', IH.
Qed.

End MapSetAlgebra.

(** The entities after the loop of [createEntities], as writes to the map. *)
Lemma createEntities_fold_entities inputs acc :
  entities (fst (fold_left createEntities_step inputs acc)) =
  fold_left (fun m (e : CreateEntityInput) => Map_set (name e) (stored_entity e) m)
            inputs (entities (fst acc)).
Proof.
  revert acc; induction inputs as [|e l IH]; intros [this created];
    cbn [fold_left]; [reflexivity|].
  rewrite IH. cbn [createEntities_step fst entities].
  now rewrite stored_entity_eta.
Qed.

Section WritesOfABatch.

Local Abbreviation write_all l m :=
  (fold_left (fun entries (e : CreateEntityInput) =>
                Map_set (name e) (stored_entity e) entries) l m).

Lemma write_all_keeps_has l (m : Map EntityWithType) k :
  Map_has k m = true -> Map_has k (write_all l m) = true.
Proof.
  revert m; induction l as [|e l IH]; intros m Hk; cbn [fold_left]; [exact Hk|].
  apply IH. rewrite Map_has_set, Hk. apply orb_true_r.
Qed.

Lemma write_all_has_names l (m : Map EntityWithType) (e : CreateEntityInput) :
  In e l -> Map_has (name e) (write_all l m) = true.
Proof.
  revert m; induction l as [|e0 l IH]; intros m Hin; [destruct Hin|].
  cbn [fold_left]. destruct Hin as [<-|Hin].
  - apply write_all_keeps_has. rewrite Map_has_set, String.eqb_refl.
    reflexivity.
  - now apply IH.
Qed.

(** A write that the batch overwrites later is without effect. *)
Lemma write_all_absorbs l (m : Map EntityWithType) k v :
  In k (map name l) ->
  (forall e : CreateEntityInput, In e l -> Map_has (name e) m = true) ->
  write_all l (Map_set k v m) = write_all l m.
Proof.
  revert m; induction l as [|e l IH]; intros m Hin Hall; [destruct Hin|].
  cbn [fold_left].
  destruct (String.eqb (name e) k) eqn:E.
  - apply String.eqb_eq in E; subst k. now rewrite Map_set_set_same.
  - apply String.eqb_neq in E.
    rewrite Map_set_comm by (auto; apply Hall; now left).
    apply IH.
    + destruct Hin as [Hin|Hin]; [contradiction|exact Hin].
    + intros e' He'. rewrite Map_has_set.
      rewrite (Hall e') by now right. apply orb_true_r.
Qed.

(** A write under a name outside the batch can be done before or after. *)
Lemma write_all_commutes l (m : Map EntityWithType) k v :
  ~ In k (map name l) ->
  (forall e : CreateEntityInput, In e l -> Map_has (name e) m = true) ->
  write_all l (Map_set k v m) = Map_set k v (write_all l m).
Proof.
  revert m; induction l as [|e l IH]; intros m Hnotin Hall; [reflexivity|].
  cbn [fold_left].
  assert (Hne : name e <> k) by (intros <-; apply Hnotin; now left).
  rewrite Map_set_comm by (auto; apply Hall; now left).
  apply IH.
  - intros Hin. apply Hnotin. now right.
  - intros e' He'. rewrite Map_has_set.
    rewrite (Hall e') by now right. apply orb_true_r.
Qed.

Lemma write_all_idempotent l (m : Map EntityWithType) :
  write_all l (write_all l m) = write_all l m.
Proof.
  induction l as [|e l IH] using rev_ind; [reflexivity|].
  rewrite !fold_left_app. cbn [fold_left].
  set (Y := write_all l m) in *.
  assert (Hall : forall e' : CreateEntityInput,
             In e' l -> Map_has (name e') Y = true)
    by (intros e' He'; now apply write_all_has_names).
  destruct (in_dec string_dec (name e) (map name l)) as [Hin|Hnotin].
  - rewrite write_all_absorbs by assumption. now rewrite IH.
  - rewrite write_all_commutes by assumption.
    now rewrite Map_set_set_same, IH.
Qed.

End WritesOfABatch.

(** X16.  [createEntities] can be repeated: the same batch a second time
    leaves the store exactly as the first call left it, every entity in its
    place, also when the batch names an entity more than once. *)
Theorem createEntities_repeat :
  forall (inputs : list CreateEntityInput) (this : MockMCPClient),
    createEntities inputs (snd (createEntities inputs this)) =
    (inputs, snd (createEntities inputs this)).
Proof.
  intros inputs this. rewrite !createEntities_result. cbn [fst snd].
  rewrite createEntities_fold_created. cbn [snd app]. f_equal.
  set (once := fst (fold_left createEntities_step inputs (this, []))).
  assert (He : entities (fst (fold_left createEntities_step inputs (once, [])))
               = entities once).
  { rewrite createEntities_fold_entities. cbn [fst]. unfold once.
    rewrite createEntities_fold_entities. cbn [fst].
    apply write_all_idempotent. }
  assert (Hr : relations (fst (fold_left createEntities_step inputs (once, [])))
               = relations once)
    by apply createEntities_fold_relations.
  destruct (fst (fold_left createEntities_step inputs (once, []))) as [es rs].
  destruct once as [es' rs']. cbn in He, Hr. now subst.
Qed.

(* ================================================================= *)
(** * Further properties of the engine *)

Section EngineMore.

Variable value : Type.
Variable typeOf : value -> js_type.
Variables String_ JSON_stringify : value -> string.
Variable instanceof_Error : value -> bool.
Variable Error_message : value -> string.
Variable C : Type.
Variable I : MCPClientInterface value C.

Local Abbreviation line := (write_line typeOf String_ JSON_stringify).
Local Abbreviation eval := (@evaluate value typeOf String_ JSON_stringify C I).
Local Abbreviation exec :=
  (@executeCode value typeOf String_ JSON_stringify instanceof_Error
                Error_message C I).
Local Abbreviation state := (@run_state C).

(** After the first await the timeout plays no part at all. *)
Lemma evaluate_resumed_any_timeout (t t' : N) (code : script value) :
  forall s : state, eval t code None s = eval t' code None s.
Proof.
  induction code as [| e | | ms k IH | m args k IH | c k IH | ms k IH];
    intros s; cbn [evaluate]; auto.
  destruct (callMCPTool c (rs_client s)) as [p client']. apply IH.
Qed.

(** A synchronous start that fits is not touched by the timer. *)
Lemma evaluate_within_unguarded (t : N) (code : script value) :
  forall (remaining : N) (s : state),
    sync_within remaining code = true ->
    eval t code (Some remaining) s = eval t code None s.
Proof.
  induction code as [| e | | ms k IH | m args k IH | c k IH | ms k IH];
    intros remaining s Hin; cbn [evaluate sync_within] in *;
    try reflexivity; try discriminate.
  - apply andb_true_iff in Hin as [Hle Hin]. rewrite Hle. now apply IH.
  - now apply IH.
Qed.

(** Where a body that is left alone ends up: the client after its tool
    calls, the clock after its duration. *)
Lemma evaluate_resumed_state (t : N) (code : script value) :
  forall s : state,
    rs_client (snd (eval t code None s)) = client_after code (rs_client s) /\
    rs_clock (snd (eval t code None s)) =
      (rs_clock s + duration code (rs_client s))%N.
Proof.
  induction code as [| e | | ms k IH | m args k IH | c k IH | ms k IH];
    intros s; cbn [evaluate client_after duration snd];
    try (split; [reflexivity | lia]).
  - destruct (IH {| rs_output := rs_output s;
                    rs_clock := (rs_clock s + ms)%N;
                    rs_client := rs_client s |}) as [Hc Ht].
    cbn [rs_client rs_clock] in *. split; [exact Hc | rewrite Ht; lia].
  - apply (IH {| rs_output := sandboxConsole typeOf String_ JSON_stringify
                                m args (rs_output s);
                 rs_clock := rs_clock s;
                 rs_client := rs_client s |}).
  - destruct (callMCPTool c (rs_client s)) as [p client'].
    destruct (IH (settled p)
                 {| rs_output := rs_output s;
                    rs_clock := (rs_clock s + pending_ms p)%N;
                    rs_client := client' |}) as [Hc Ht].
    cbn [rs_client rs_clock] in *. split; [exact Hc | rewrite Ht; lia].
  - destruct (IH {| rs_output := rs_output s;
                    rs_clock := (rs_clock s + ms)%N;
                    rs_client := rs_client s |}) as [Hc Ht].
    cbn [rs_client rs_clock] in *. split; [exact Hc | rewrite Ht; lia].
Qed.


(** X18.  A timeout that the synchronous start of the body respects has no
    influence on the outcome: under any two such timeouts [executeCode]
    answers the same, or fails to answer under both. *)
Theorem executeCode_timeout_irrelevant_when_respected :
  forall (code : script value) (t1 t2 : N) (mcpClient : option C),
    valid_timeout t1 = true -> valid_timeout t2 = true ->
    sync_within t1 code = true -> sync_within t2 code = true ->
    exec code {| timeoutMs := Some t1 |} mcpClient =
    exec code {| timeoutMs := Some t2 |} mcpClient.
Proof.
  intros code t1 t2 mcpClient Hv1 Hv2 H1 H2.
  rewrite !executeCode_unfold. cbn [timeout_of timeoutMs].
  rewrite !run_valid by assumption.
  rewrite (evaluate_within_unguarded _ _ _ _ H1),
    (evaluate_within_unguarded _ _ _ _ H2).
  now rewrite (evaluate_resumed_any_timeout t1 t2).
Qed.


(** X20.  String arguments are written as they are, without quotes: a
    console call whose arguments are all strings captures the prefix of its
    method and the strings joined by single spaces. *)
Theorem console_line_of_strings :
  forall (m : console_method) (args : list value) (texts : list string),
    map typeOf args = map js_string texts ->
    console_line typeOf String_ JSON_stringify m args =
    (console_prefix m ++ String.concat " " texts)%string.
Proof.
  intros m args texts Hty. unfold console_line. f_equal. f_equal.
  revert texts Hty. induction args as [|v args IH]; intros [|t texts] Hty;
    try discriminate; [reflexivity|].
  cbn [map] in *. injection Hty as Hv Hrest.
  rewrite (IH _ Hrest). unfold formatValue. now rewrite Hv.
Qed.

End EngineMore.

(* ================================================================= *)
(** * The switch of callTool *)

Section CallToolByNameFacts.

Variable value : Type.
Variable toLowerCase : string -> string.
Variable undefined_TypeError : string -> thrown value.

Local Abbreviation by_name :=
  (Mock_callTool_by_name toLowerCase undefined_TypeError).

(** X21.  Each of the nine wrappers of operations.ts reaches the method it
    is named after: the switch of [callTool], given the tool name and the
    parameter object the wrapper builds, does what the method does with the
    wrapper's argument.  In particular the nine names select nine
    different cases. *)
Theorem wrappers_reach_their_methods :
  forall (c : tool_call) (this : MockMCPClient),
    by_name this (toolName c) (params_of c) =
    Mock_callTool value toLowerCase this c.
Proof. intros c this. destruct c; reflexivity. Qed.

Lemma not_in_cons_eqb (k x : string) (l : list string) :
  ~ In k (x :: l) -> String.eqb k x = false /\ ~ In k l.
Proof.
  intros H. split.
  - apply String.eqb_neq. intros ->. apply H. now left.
  - intros Hin. apply H. now right.
Qed.

(** X22.  A tool name outside the nine is rejected with
    [Unknown tool: <name>], whatever the parameters, and the store is left
    as it was. *)
Theorem callTool_unknown_tool :
  forall (this : MockMCPClient) (name_ : string) (params : tool_params),
    ~ In name_ tool_names ->
    by_name this name_ params =
    (rejected (NewError ("Unknown tool: " ++ name_)%string), this).
Proof.
  intros this name_ params Hnot. unfold tool_names in Hnot.
  unfold Mock_callTool_by_name.
  repeat match type of Hnot with
         | ~ In _ (_ :: _) =>
             apply not_in_cons_eqb in Hnot as [-> Hnot]
         end.
  reflexivity.
Qed.


End CallToolByNameFacts.

(* ================================================================= *)
(** * The get_record_count tool *)

Section RecordCountFacts.

Variable value : Type.
Variable typeOf : value -> js_type.
Variables String_ JSON_stringify : value -> string.
Variable instanceof_Error : value -> bool.
Variable Error_message : value -> string.
Variable number : nat -> value.
Variable undefined_TypeError : string -> thrown value.
Variable toLowerCase : string -> string.

Local Abbreviation count_with J :=
  (get_record_count typeOf String_ JSON_stringify instanceof_Error
                    Error_message number undefined_TypeError
                    (client_interface := J)).

(** X24.  [get_record_count] on the mock client answers with the printed
    number of stored entities ([0] should that print as the empty string)
    and leaves the client as it is; with no client installed it answers
    [Records in memory: 0] as well, the failure of the script being
    dropped. *)
Theorem get_record_count_reports :
  forall this : MockMCPClient,
    (forall n : nat, typeOf (number n) = js_number) ->
    count_with (MockMCPClient_interface value toLowerCase) (Some this) =
      Some (("Records in memory: "
             ++ (if String.eqb (String_ (number (List.length (entities this)))) ""
                 then "0"
                 else String_ (number (List.length (entities this)))))%string,
            Some this) /\
    count_with (MockMCPClient_interface value toLowerCase) None =
      Some ("Records in memory: 0", None).
Proof.
  intros this Hnum. split.
  - unfold get_record_count. rewrite executeCode_unfold.
    cbn [timeout_of timeoutMs]. rewrite run_valid by reflexivity.
    cbn [record_count_script evaluate callMCPTool getMCPClient rs_client
         callTool MockMCPClient_interface Mock_callTool resolved settled
         pending_ms readGraph graph_entities sandboxConsole rs_output
         output app].
    unfold console_line. cbn [map console_prefix String.concat].
    unfold formatValue. rewrite Hnum. unfold Map_values. rewrite length_map.
    cbn [append]. reflexivity.
  - reflexivity.
Qed.

End RecordCountFacts.

(* ================================================================= *)
(** * Worked examples for the further properties *)

Lemma sample_names_NoDup : NoDup ["Server_001"; "Database_001"].
Proof.
  apply NoDup_cons; [cbn; intros [H|[]]; discriminate|].
  apply NoDup_cons; [intros []|apply NoDup_nil].
Defined.

(** Two entities created on a fresh client are listed in input order. *)
Lemma createEntities_fresh_appends_witness :
  graph_entities
    (readGraph (snd (createEntities [Server_001; Database_001]
                                    new_MockMCPClient))) =
  [stored_entity Server_001; stored_entity Database_001].
Proof.
  exact (proj1 (@createEntities_fresh_appends
                  [Server_001; Database_001] new_MockMCPClient
                  sample_names_NoDup (fun _ _ => eq_refl))).
Defined.

(** Created over the sample store, where one of the names is taken. *)
Lemma openNodes_after_createEntities_witness :
  graph_entities
    (openNodes ["Server_001"; "Database_001"]
               (snd (createEntities [Server_001_again; Database_001]
                                    sample_store))) =
  [stored_entity Server_001_again; stored_entity Database_001].
Proof.
  exact (@openNodes_after_createEntities
           [Server_001_again; Database_001] sample_store sample_names_NoDup).
Defined.

Lemma loadData_then_readGraph_witness :
  readGraph (loadData (readGraph sample_store) new_MockMCPClient) =
  readGraph sample_store.
Proof.
  exact (@loadData_then_readGraph (readGraph sample_store) new_MockMCPClient
           sample_names_NoDup).
Defined.

Lemma loadData_restores_snapshot_witness :
  loadData (readGraph sample_store) new_MockMCPClient = sample_store.
Proof.
  exact (@loadData_restores_snapshot sample_store new_MockMCPClient
           sample_store_wf).
Defined.

Lemma searchNodes_empty_query_witness :
  graph_entities (searchNodes toLowerCase_ascii "" sample_store) =
  graph_entities (readGraph sample_store).
Proof.
  exact (@searchNodes_empty_query toLowerCase_ascii sample_store eq_refl).
Defined.

(** [PostgreSQL], added to [Server_001], is found by [postgres]. *)
Lemma searchNodes_finds_added_observation_witness :
  In (with_appended ["uses PostgreSQL"] (stored_entity Server_001))
     (graph_entities
        (searchNodes toLowerCase_ascii "postgres"
           (snd (addObservations
                   [{| entityName := "Server_001";
                       contents := ["uses PostgreSQL"] |}]
                   sample_store)))).
Proof.
  apply (@searchNodes_finds_added_observation
           toLowerCase_ascii "postgres"
           {| entityName := "Server_001"; contents := ["uses PostgreSQL"] |}
           (stored_entity Server_001) "uses PostgreSQL" sample_store).
  - reflexivity.
  - now left.
  - exists "uses ", "ql". reflexivity.
Defined.


Lemma executeCode_timeout_irrelevant_when_respected_witness :
  sample_executeCode sample_interface three_lines_two_calls
                     {| timeoutMs := Some 50%N |} (Some sample_store) =
  sample_executeCode sample_interface three_lines_two_calls
                     {| timeoutMs := Some 60000%N |} (Some sample_store).
Proof.
  exact (@executeCode_timeout_irrelevant_when_respected
           sample_value sample_typeOf sample_String sample_JSON_stringify
           sample_instanceof_Error sample_Error_message MockMCPClient
           sample_interface three_lines_two_calls 50%N 60000%N
           (Some sample_store) eq_refl eq_refl eq_refl eq_refl).
Defined.


Lemma console_line_of_strings_witness :
  console_line sample_typeOf sample_String sample_JSON_stringify console_warn
               [sample_text "disk"; sample_text "almost full"] =
  "[WARN] disk almost full".
Proof.
  exact (@console_line_of_strings
           sample_value sample_typeOf sample_String sample_JSON_stringify
           console_warn [sample_text "disk"; sample_text "almost full"]
           ["disk"; "almost full"] eq_refl).
Defined.

Lemma callTool_unknown_tool_witness :
  Mock_callTool_by_name toLowerCase_ascii sample_undefined_TypeError
                        sample_store "reset_graph" no_params =
  (rejected (NewError "Unknown tool: reset_graph"), sample_store).
Proof.
  apply (@callTool_unknown_tool sample_value toLowerCase_ascii
           sample_undefined_TypeError sample_store "reset_graph" no_params).
  cbn. intros H.
  repeat (destruct H as [H|H]; [discriminate|]). exact H.
Defined.


Lemma get_record_count_reports_witness :
  get_record_count sample_typeOf sample_String sample_JSON_stringify
                   sample_instanceof_Error sample_Error_message
                   sample_number sample_undefined_TypeError
                   (client_interface := sample_interface)
                   (Some sample_store) =
  Some ("Records in memory: 2", Some sample_store).
Proof.
  exact (proj1 (@get_record_count_reports
                  sample_value sample_typeOf sample_String
                  sample_JSON_stringify sample_instanceof_Error
                  sample_Error_message sample_number
                  sample_undefined_TypeError toLowerCase_ascii
                  sample_store (fun _ => eq_refl))).
Defined.

Lemma Mock_callTool_wf_witness :
  Map_wf (snd (Mock_callTool sample_value toLowerCase_ascii sample_store
                             (call_deleteEntities ["Server_001"]))).
Proof.
  exact (@Mock_callTool_wf sample_value toLowerCase_ascii sample_store
           (call_deleteEntities ["Server_001"]) sample_store_wf).
Defined.

